(** * 乐达.py: column detection, field cleaning, age bands and report assembly

    A shallow embedding of [src/乐达.py] and the properties of its record
    classification pipeline.

    Python values are modelled as follows.
    - A [str] is its list of Unicode code points ([pystr]).
    - The two Unicode tables the script reaches through [re] ([\d]),
      [int()] and [str.upper()] belong to the interpreter, not to the
      script: they are the fields of [unicode_db], and every function that
      depends on them takes the database as an argument.
    - [datetime.now()] is the argument [today].
    - A raised exception is the [inl] of a sum, [None] is [None]. *)

From Stdlib Require Import String Ascii DecimalString.
From Stdlib Require Import List Bool Arith NArith ZArith QArith Lia Permutation.
Import ListNotations.
Close Scope Q_scope.

(* ================================================================== *)
(** * Python strings *)

Module PyStr.

(** A Python [str]: the sequence of its code points. *)
Definition pystr := list N.

(** The code point of an ASCII character, to write patterns as in the source. *)
Definition ch (a : ascii) : N := N_of_ascii a.

(** An ASCII literal as a [pystr]. *)
Definition py (s : string) : pystr := map N_of_ascii (list_ascii_of_string s).

Definition between (lo hi c : N) : bool := ((lo <=? c) && (c <=? hi))%N.

Fixpoint eqb (a b : pystr) : bool :=
  match a, b with
  | [], [] => true
  | x :: a', y :: b' => (x =? y)%N && eqb a' b'
  | _, _ => false
  end.

(** Truth value of a [str]: the empty string is false. *)
Definition truthy (s : pystr) : bool :=
  match s with [] => false | _ :: _ => true end.

(** [str.isspace] on one code point: the characters [str.strip()] removes
    (CPython's [_PyUnicode_IsWhitespace]). *)
Definition is_space (c : N) : bool :=
  between 0x09 0x0D c || between 0x1C 0x1F c || (c =? 0x20)%N
  || (c =? 0x85)%N || (c =? 0xA0)%N || (c =? 0x1680)%N
  || between 0x2000 0x200A c || (c =? 0x2028)%N || (c =? 0x2029)%N
  || (c =? 0x202F)%N || (c =? 0x205F)%N || (c =? 0x3000)%N.

Fixpoint lstrip (s : pystr) : pystr :=
  match s with
  | c :: s' => if is_space c then lstrip s' else s
  | [] => []
  end.

(** [s.rstrip()]: a character stays when it is not whitespace or when
    something stays after it. *)
Fixpoint rstrip (s : pystr) : pystr :=
  match s with
  | c :: s' =>
      match rstrip s' with
      | [] => if is_space c then [] else [c]
      | kept => c :: kept
      end
  | [] => []
  end.

(** [s.strip()] *)
Definition strip (s : pystr) : pystr := rstrip (lstrip s).

(** [s[i:j]] for [0 <= i <= j]. *)
Definition slice (i j : nat) (s : pystr) : pystr := firstn (j - i) (skipn i s).

Definition is_ascii_digit (c : N) : bool := between (ch "0") (ch "9") c.

(** The part of the Unicode character database the script depends on.
    [decimal c] is the digit value of a non-ASCII code point of category
    Nd (what [\d] matches besides [0-9], and what [int()] converts);
    [upper c] is [str.upper()] of a non-ASCII code point (it may be several
    code points). The law says what every version of the database
    satisfies: a decimal digit has a value below ten, and the table is
    asked only beyond ASCII, where no whitespace character is a digit. *)
Record unicode_db := {
  decimal : N -> option N;
  upper : N -> list N;
  decimal_sound : forall c v, decimal c = Some v ->
      (v < 10)%N /\ (128 <= c)%N /\ is_space c = false
}.

Section WithUnicode.
Variable U : unicode_db.

(** [\d] of a [str] pattern. *)
Definition is_digit (c : N) : bool :=
  is_ascii_digit c || match decimal U c with Some _ => true | None => false end.

(** The value [int()] gives a decimal digit. *)
Definition digit_value (c : N) : Z :=
  if is_ascii_digit c then Z.of_N (c - ch "0")
  else match decimal U c with Some v => Z.of_N v | None => 0 end.

(** [int(s)] on a string of decimal digits. The day group of [strptime]
    may start with a space, which [int()] skips and which counts as 0 here. *)
Definition int_of_digits (s : pystr) : Z :=
  fold_left (fun acc c => (10 * acc + digit_value c)%Z) s 0%Z.

Definition upper_char (c : N) : list N :=
  if between (ch "a") (ch "z") c then [(c - 32)%N]
  else if (c <? 128)%N then [c]
  else upper U c.

(** [s.upper()] *)
Definition py_upper (s : pystr) : pystr := flat_map upper_char s.

End WithUnicode.

End PyStr.
Import PyStr.

(* ================================================================== *)
(** * Regular expressions, as [re] runs them

    Only the constructs the script's patterns use: a character class,
    concatenation, alternation and bounded repetition (unfolded). The
    matcher is the backtracking one: alternatives are tried left to right
    and the first way to satisfy the rest of the pattern wins. *)

Module Re.

Inductive regex : Type :=
| Eps
| Cls (p : N -> bool)
| Cat (r1 r2 : regex)
| Alt (r1 r2 : regex).

(** [run r s k]: match [r] at the start of [s], then hand what is left of
    [s] to [k]; on failure of [k] backtrack into [r]. *)
Fixpoint run {A : Type} (r : regex) (s : pystr) (k : pystr -> option A) : option A :=
  match r with
  | Eps => k s
  | Cls p => match s with
             | c :: s' => if p c then k s' else None
             | [] => None
             end
  | Cat r1 r2 => run r1 s (fun s' => run r2 s' k)
  | Alt r1 r2 => match run r1 s k with
                 | Some a => Some a
                 | None => run r2 s k
                 end
  end.

(** [re.match(r, s)]: what is left of [s] after the match. *)
Definition re_match (r : regex) (s : pystr) : option pystr := run r s (@Some pystr).

(** [re.search(r, s)]: the text of the leftmost match, [match.group()]. *)
Fixpoint re_search (r : regex) (s : pystr) : option pystr :=
  match re_match r s with
  | Some rest => Some (firstn (length s - length rest) s)
  | None => match s with
            | [] => None
            | _ :: s' => re_search r s'
            end
  end.

(** [re.fullmatch(r, s)] as a truth value. *)
Definition re_fullmatch (r : regex) (s : pystr) : bool :=
  match run r s (fun rest => match rest with [] => Some tt | _ :: _ => None end) with
  | Some _ => true
  | None => false
  end.

(** Pattern syntax. *)
Definition lit (a : ascii) : regex := Cls (N.eqb (ch a)).
Definition range (a b : ascii) : regex := Cls (between (ch a) (ch b)).
Definition cat (rs : list regex) : regex := fold_right Cat Eps rs.
Fixpoint alt (r : regex) (rs : list regex) : regex :=
  match rs with
  | [] => r
  | r' :: rs' => Alt r (alt r' rs')
  end.
(** [r{n}] *)
Fixpoint rep (n : nat) (r : regex) : regex :=
  match n with
  | O => Eps
  | S n' => Cat r (rep n' r)
  end.
(** [r{0,n}], greedy *)
Fixpoint upto (n : nat) (r : regex) : regex :=
  match n with
  | O => Eps
  | S n' => Alt (Cat r (upto n' r)) Eps
  end.

(** The words of a pattern. *)
Inductive matches : regex -> pystr -> Prop :=
| m_eps : matches Eps []
| m_cls p c : p c = true -> matches (Cls p) [c]
| m_cat r1 r2 w1 w2 : matches r1 w1 -> matches r2 w2 -> matches (Cat r1 r2) (w1 ++ w2)
| m_alt_l r1 r2 w : matches r1 w -> matches (Alt r1 r2) w
| m_alt_r r1 r2 w : matches r2 w -> matches (Alt r1 r2) w.

End Re.
Import Re.

(* ================================================================== *)
(** * Field cleaning and age ([clean_phone], [clean_id], [calculate_age],
      [age_category]) *)

(** A calendar date, as [datetime] holds it. *)
Record date := { year : Z; month : Z; day : Z }.

(** The five values of the column 年龄段, in the words of the specification:
    [Child] is '0-7岁', [Youth] '7-23岁', [Adult] '23-60岁', [Senior]
    '60岁及以上' and [Unknown] '未知'. *)
Inductive band := Child | Youth | Adult | Senior | Unknown.

Definition band_eqb (a b : band) : bool :=
  match a, b with
  | Child, Child | Youth, Youth | Adult, Adult
  | Senior, Senior | Unknown, Unknown => true
  | _, _ => false
  end.

Section Fields.
Variable U : unicode_db.

Definition digit : regex := Cls (is_digit U).
Definition oneof (l : list ascii) : regex :=
  Cls (fun c => existsb (fun a => (c =? ch a)%N) l).

(** [r'1[3-9]\d{9}'] *)
Definition phone_re : regex :=
  cat [lit "1"; range "3" "9"; rep 9 digit].

(** The 17 leading characters of both ID patterns:
    [[1-9]\d{5}(19|20)\d{2}(0[1-9]|1[0-2])(0[1-9]|[12]\d|3[01])\d{3}] *)
Definition id_body : list regex :=
  [ range "1" "9"; rep 5 digit;
    alt (cat [lit "1"; lit "9"]) [cat [lit "2"; lit "0"]];
    rep 2 digit;
    alt (cat [lit "0"; range "1" "9"]) [cat [lit "1"; range "0" "2"]];
    alt (cat [lit "0"; range "1" "9"])
        [cat [oneof ["1"; "2"]%char; digit]; cat [lit "3"; oneof ["0"; "1"]%char]];
    rep 3 digit ].

(** The pattern of [clean_id], ending in [[\dX]]. *)
Definition id_re : regex :=
  cat (id_body ++ [Cls (fun c => is_digit U c || (c =? ch "X")%N)]).

(** The pattern of [detect_columns], ending in [[\dXx]]. *)
Definition id_re_detect : regex :=
  cat (id_body ++ [Cls (fun c => is_digit U c || (c =? ch "X")%N || (c =? ch "x")%N)]).

(** The class [[一-龥]], U+4E00 to U+9FA5. *)
Definition is_han (c : N) : bool := between 0x4e00 0x9fa5 c.

(** [r'[一-龥]{2,4}'] *)
Definition name_re : regex :=
  Cat (rep 2 (Cls is_han)) (upto 2 (Cls is_han)).

Definition group_or_empty (m : option pystr) : pystr :=
  match m with Some g => g | None => [] end.

(** [clean_phone]; its argument is a [str] ([process_excel] converts the
    column with [astype(str)]), so [pd.isna] is false. *)
Definition clean_phone (phone_str : pystr) : pystr :=
  if negb (truthy phone_str) then []
  else
    let s := strip phone_str in
    group_or_empty (re_search phone_re s).

(** [clean_id] *)
Definition clean_id (id_str : pystr) : pystr :=
  if negb (truthy id_str) then []
  else
    let s := py_upper U (strip id_str) in
    group_or_empty (re_search id_re s).

(** ** [datetime.strptime(birth_str, '%Y%m%d')] *)

Definition is_leap (y : Z) : bool :=
  ((y mod 4 =? 0) && (negb (y mod 100 =? 0) || (y mod 400 =? 0)))%Z.

Definition days_in_month (y m : Z) : Z :=
  if (m =? 2)%Z then (if is_leap y then 29 else 28)%Z
  else if ((m =? 4) || (m =? 6) || (m =? 9) || (m =? 11))%Z then 30%Z
  else 31%Z.

(** The constructor of [datetime]: [ValueError] outside the calendar. *)
Definition make_date (y m d : Z) : option date :=
  if ((1 <=? y) && (y <=? 9999) && (1 <=? m) && (m <=? 12)
      && (1 <=? d) && (d <=? days_in_month y m))%Z
  then Some {| year := y; month := m; day := d |}
  else None.

(** The patterns [_strptime] compiles the directives to:
    [%Y] is [\d\d\d\d], [%m] is [1[0-2]|0[1-9]|[1-9]] and
    [%d] is [3[0-1]|[1-2]\d|0[1-9]|[1-9]| [1-9]]. *)
Definition re_Y : regex := rep 4 digit.
Definition re_m : regex :=
  alt (cat [lit "1"; range "0" "2"]) [cat [lit "0"; range "1" "9"]; range "1" "9"].
Definition re_d : regex :=
  alt (cat [lit "3"; range "0" "1"])
      [cat [range "1" "2"; digit]; cat [lit "0"; range "1" "9"]; range "1" "9";
       cat [lit " "; range "1" "9"]].

(** The text between two positions of a match, each given by what is
    left of the string there. *)
Definition group_text (from to : pystr) : pystr :=
  firstn (length from - length to) from.

(** [strptime] with the format ['%Y%m%d']: the three groups are matched
    in sequence with backtracking; text left after the match is an error
    ("unconverted data remains"), and so is a date outside the calendar. *)
Definition strptime_Ymd (s : pystr) : option date :=
  match run re_Y s (fun s1 => run re_m s1 (fun s2 => run re_d s2 (fun s3 =>
          Some (s1, s2, s3)))) with
  | None => None
  | Some (s1, s2, s3) =>
      if truthy s3 then None
      else make_date (int_of_digits U (group_text s s1))
                     (int_of_digits U (group_text s1 s2))
                     (int_of_digits U (group_text s2 s3))
  end.

(** [(a1, a2) < (b1, b2)] on tuples of integers. *)
Definition pair_ltb (a b : Z * Z) : bool :=
  ((fst a <? fst b) || ((fst a =? fst b) && (snd a <? snd b)))%Z.

(** [calculate_age]; [today] is [datetime.now()], the bare [except]
    turns every error of the [try] block into [None]. *)
Definition calculate_age (today : date) (id_card : pystr) : option Z :=
  if negb (truthy id_card) then None
  else
    let birth_str := slice 6 14 id_card in
    match strptime_Ymd birth_str with
    | Some birth_date =>
        Some (year today - year birth_date
              - (if pair_ltb (month today, day today)
                             (month birth_date, day birth_date)
                 then 1 else 0))%Z
    | None => None
    end.

(** [age_category] *)
Definition age_category (age : option Z) : band :=
  match age with
  | None => Unknown
  | Some a =>
      if (a <? 7)%Z then Child
      else if (a <? 23)%Z then Youth
      else if (a <? 60)%Z then Adult
      else Senior
  end.

End Fields.


(* ================================================================== *)
(** * Column detection ([detect_columns]) *)

(** A column label of the data frame, a text taken from the header row.
    [read_excel] gives every column a label of its own, so a table is a
    list of columns with distinct labels, in the order of [df.columns]. *)
Definition label := pystr.

(** A cell: [None] is a missing value (NaN), [Some v] a value with
    [str(value) = v]. *)
Definition cell := option pystr.

Record column := { col_label : label; col_cells : list cell }.
Definition table := list column.

(** The three scores of a column, [scores[col]]. The script holds the
    quotients as floats; a quotient of two integers up to 100 is rounded
    to the float nearest to it, so two of them, or one of them and the
    literal [0.3], compare as the exact fractions do. *)
Record score := { s_name : Q; s_phone : Q; s_id : Q }.

(** The fields a failed detection lists: "姓名列", "手机列", "身份证列". *)
Inductive field := FName | FPhone | FId.

(** The two [ValueError]s of [detect_columns]: [max()] of an empty
    sequence, and the script's own with its list [missing]. *)
Inductive error :=
| MaxOfEmpty
| DetectFailed (missing : list field).

Definition Qltb (a b : Q) : bool := negb (Qle_bool b a).

Definition threshold : Q := (3 # 10)%Q.

(** [max(xs, key=f)] continued from a first element: the first of the
    greatest elements. *)
Fixpoint max_from {X : Type} (f : X -> Q) (best : X) (xs : list X) : X :=
  match xs with
  | [] => best
  | x :: xs' => if Qltb (f best) (f x) then max_from f x xs' else max_from f best xs'
  end.

(** [max(xs, key=f)]; [None] is the [ValueError] on an empty sequence. *)
Definition py_max {X : Type} (f : X -> Q) (xs : list X) : option X :=
  match xs with
  | [] => None
  | x :: xs' => Some (max_from f x xs')
  end.

Definition mem (c : label) (used : list label) : bool :=
  existsb (PyStr.eqb c) used.

(** Truth value of a column variable: [None] and the empty label are false. *)
Definition col_truthy (c : option label) : bool :=
  match c with Some l => truthy l | None => false end.

Definition dropna (cells : list cell) : list pystr :=
  flat_map (fun c => match c with Some v => [v] | None => [] end) cells.

Section Detect.
Variable U : unicode_db.

(** The three predicates of the scoring loop. *)
Definition phone_hit (value : pystr) : bool :=
  match re_search (phone_re U) value with Some _ => true | None => false end.
Definition id_hit (value : pystr) : bool :=
  match re_search (id_re_detect U) value with Some _ => true | None => false end.
Definition name_hit (value : pystr) : bool := re_fullmatch name_re value.

(** [df[col].dropna().astype(str).head(100)] *)
Definition sample (c : column) : list pystr := firstn 100 (dropna (col_cells c)).

Definition hits (p : pystr -> bool) (values : list pystr) : nat :=
  length (filter p values).

(** A raw count divided by [total], left at 0 when [total] is 0. *)
Definition normalize (raw total : nat) : Q :=
  if Nat.eqb total 0 then 0%Q else (Z.of_nat raw # Pos.of_nat total)%Q.

Definition score_column (c : column) : score :=
  let values := sample c in
  let total := length values in
  {| s_name := normalize (hits name_hit values) total;
     s_phone := normalize (hits phone_hit values) total;
     s_id := normalize (hits id_hit values) total |}.

(** The dictionary [scores], in insertion order. *)
Definition score_table (df : table) : list (label * score) :=
  map (fun c => (col_label c, score_column c)) df.

(** [scores[c]]; every column has its entry, the default is never used. *)
Fixpoint get (scores : list (label * score)) (c : label) : score :=
  match scores with
  | [] => {| s_name := 0%Q; s_phone := 0%Q; s_id := 0%Q |}
  | (l, s) :: rest => if PyStr.eqb l c then s else get rest c
  end.

(** Lines 97-99:
    [max(scores, key=...) if max(s[k] for s in scores.values()) > 0.3 else None]. *)
Definition first_pick (key : score -> Q) (scores : list (label * score))
  : error + option label :=
  match py_max (fun v => v) (map (fun e => key (snd e)) scores) with
  | None => inl MaxOfEmpty
  | Some top =>
      if Qltb threshold top
      then match py_max (fun e => key (snd e)) scores with
           | Some e => inr (Some (fst e))
           | None => inl MaxOfEmpty
           end
      else inr None
  end.

(** The [else] branches of lines 112-118 and 121-126: the best column
    outside [used]; with no column left the variable keeps its value. *)
Definition reselect (key : score -> Q) (columns : list label)
    (scores : list (label * score)) (used : list label) (current : option label)
  : option label :=
  let candidates :=
    map (fun c => (c, key (get scores c)))
        (filter (fun c => negb (mem c used)) columns) in
  match py_max snd candidates with
  | None => current
  | Some best => if Qle_bool (snd best) threshold then None else Some (fst best)
  end.

(** [col and col not in used], then [used.add(col)]: the grown set when
    the test holds. *)
Definition claim (col : option label) (used : list label) : option (list label) :=
  match col with
  | Some l => if truthy l && negb (mem l used) then Some (l :: used) else None
  | None => None
  end.

(** Lines 107-126, on the three first picks. *)
Definition resolve (columns : list label) (scores : list (label * score))
    (name_col phone_col id_col : option label)
  : option label * option label * option label :=
  let used := [] in
  let used :=
    match claim id_col used with Some used' => used' | None => used end in
  let '(phone_col, used) :=
    match claim phone_col used with
    | Some used' => (phone_col, used')
    | None => (reselect s_phone columns scores used phone_col, used)
    end in
  let '(name_col, used) :=
    match claim name_col used with
    | Some used' => (name_col, used')
    | None => (reselect s_name columns scores used name_col, used)
    end in
  (name_col, phone_col, id_col).

(** Lines 128-137. *)
Definition missing_fields (name_col phone_col id_col : option label) : list field :=
  (if col_truthy name_col then [] else [FName])
  ++ (if col_truthy phone_col then [] else [FPhone])
  ++ (if col_truthy id_col then [] else [FId]).

(** [detect_columns], returning [(name_col, phone_col, id_col)]. With
    [missing] empty the three variables hold labels. *)
Definition detect_columns (df : table) : error + (label * label * label) :=
  let columns := map col_label df in
  let scores := score_table df in
  match first_pick s_name scores, first_pick s_phone scores, first_pick s_id scores with
  | inr name_col, inr phone_col, inr id_col =>
      let '(name_col, phone_col, id_col) :=
        resolve columns scores name_col phone_col id_col in
      match missing_fields name_col phone_col id_col, name_col, phone_col, id_col with
      | [], Some n, Some p, Some i => inr (n, p, i)
      | missing, _, _, _ => inl (DetectFailed missing)
      end
  | inl e, _, _ | _, inl e, _ | _, _, inl e => inl e
  end.

End Detect.

(* ================================================================== *)
(** * Records ([process_excel], lines 162-185) *)

(** A row of [base_df]: 姓名, 手机, 身份证号, 年龄, 年龄段. *)
Record record := {
  r_name : pystr;
  r_phone : pystr;
  r_id : pystr;
  r_age : option Z;
  r_cat : band
}.

(** [astype(str).replace('nan', '')] on one cell: a missing value prints
    as 'nan', and the value 'nan' becomes the empty string. *)
Definition nan_to_empty (c : cell) : pystr :=
  match c with
  | None => []
  | Some v => if PyStr.eqb v (py "nan") then [] else v
  end.

Section Records.
Variable U : unicode_db.
Variable today : date.

(** The row of [base_df] for one row of the three chosen columns. *)
Definition make_record (name_cell phone_cell id_cell : cell) : record :=
  let name := strip (nan_to_empty name_cell) in
  let phone := clean_phone U (nan_to_empty phone_cell) in
  let id_card := clean_id U (nan_to_empty id_cell) in
  let age := calculate_age U today id_card in
  {| r_name := name; r_phone := phone; r_id := id_card;
     r_age := age; r_cat := age_category age |}.

Definition cells_of (df : table) (c : label) : list cell :=
  match find (fun col => PyStr.eqb (col_label col) c) df with
  | Some col => col_cells col
  | None => []
  end.

Fixpoint zip3 (a b c : list cell) : list (cell * cell * cell) :=
  match a, b, c with
  | x :: a', y :: b', z :: c' => (x, y, z) :: zip3 a' b' c'
  | _, _, _ => []
  end.

(** [base_df] *)
Definition base_df (df : table) (name_col phone_col id_col : label) : list record :=
  map (fun '(n, p, i) => make_record n p i)
      (zip3 (cells_of df name_col) (cells_of df phone_col) (cells_of df id_col)).

End Records.

(* ================================================================== *)
(** * Report assembly ([process_excel], lines 187-239) *)

(** A row of the report. The constructor says which statement of the
    loop appended it; [CountRow] keeps the band of its iteration beside
    the count that is written into the row (see [render]). *)
Inductive out_row :=
| DataRow (r : record)
| CountRow (cat : band) (total_count : nat)
| BlankRow.

(** [category_order] *)
Definition category_order : list band := [Adult; Youth; Child; Senior; Unknown].

(** [enumerate(xs)] *)
Fixpoint enumerate_from {X : Type} (i : nat) (xs : list X) : list (nat * X) :=
  match xs with
  | [] => []
  | x :: xs' => (i, x) :: enumerate_from (S i) xs'
  end.
Definition enumerate {X : Type} (xs : list X) : list (nat * X) := enumerate_from 0 xs.

(** A comparison of the column 年龄 with a bound; false on a missing age. *)
Definition age_in (lo hi : Z) (age : option Z) : bool :=
  match age with
  | Some a => ((lo <=? a) && (a <? hi))%Z
  | None => false
  end.

(** [sub_condition], lines 199-205. *)
Definition sub_condition (cat : band) (r : record) : bool :=
  match cat with
  | Adult => age_in 23 25 (r_age r)
  | Youth => age_in 21 23 (r_age r)
  | _ => false
  end.

Definition is_empty {X : Type} (xs : list X) : bool :=
  match xs with [] => true | _ :: _ => false end.

(** One iteration of the loop over [enumerate(category_order)]: the
    value of [parts] after it. *)
Definition assemble_step (base : list record) (parts : list (list out_row))
    (i : nat) (cat : band) : list (list out_row) :=
  let cat_data := filter (fun r => band_eqb (r_cat r) cat) base in
  if is_empty cat_data then parts
  else
    let main_data := filter (fun r => negb (sub_condition cat r)) cat_data in
    let sub_data := filter (sub_condition cat) cat_data in
    let parts := if negb (is_empty main_data)
                 then parts ++ [map DataRow main_data] else parts in
    let parts := if negb (is_empty sub_data)
                 then parts ++ [map DataRow sub_data] else parts in
    let total_count := length cat_data in
    let parts := parts ++ [[CountRow cat total_count]] in
    if (i <? length category_order - 1)%nat
    then parts ++ [[BlankRow]]
    else parts.

Definition assemble_parts (base : list record) : list (list out_row) :=
  fold_left (fun parts '(i, cat) => assemble_step base parts i cat)
            (enumerate category_order) [].

(** The rows of [final_df]; [pd.concat] raises [ValueError] on an empty
    list of parts, which is [None] here. (With [AUTO_DETECT] on, a table
    without rows fails in [detect_columns] before it gets here.) *)
Definition assemble (base : list record) : option (list out_row) :=
  match assemble_parts base with
  | [] => None
  | parts => Some (concat parts)
  end.

(* ================================================================== *)
(** * The written sheet and its fills ([process_excel], lines 241-308) *)

(** The labels of the column 年龄段. *)
Definition category_label (b : band) : pystr :=
  match b with
  | Child => py "0-7" ++ [0x5c81]
  | Youth => py "7-23" ++ [0x5c81]
  | Adult => py "23-60" ++ [0x5c81]
  | Senior => py "60" ++ [0x5c81; 0x53ca; 0x4ee5; 0x4e0a]
  | Unknown => [0x672a; 0x77e5]
  end%N.

(** The value of a cell of the column 年龄: a number (an [int], or a
    [float] with an integer value when the column holds a missing age),
    the empty string of a count or blank row, or nothing (a missing age). *)
Inductive age_cell := AgeNumber (a : Z) | AgeEmptyString | AgeNone.

(** The cells of a sheet row that the fill loop reads. *)
Record sheet_row := {
  c_name : pystr;
  c_age : age_cell;
  c_cat : pystr
}.

(** [f'人数：{total_count}'] *)
Definition count_text (total_count : nat) : pystr :=
  [0x4eba; 0x6570; 0xff1a]%N
  ++ py (NilEmpty.string_of_uint (Nat.to_uint total_count)).

(** What [to_excel] writes for a row of [final_df]. *)
Definition render (row : out_row) : sheet_row :=
  match row with
  | DataRow r =>
      {| c_name := r_name r;
         c_age := match r_age r with Some a => AgeNumber a | None => AgeNone end;
         c_cat := category_label (r_cat r) |}
  | CountRow _ total_count =>
      {| c_name := count_text total_count; c_age := AgeEmptyString; c_cat := [] |}
  | BlankRow =>
      {| c_name := []; c_age := AgeEmptyString; c_cat := [] |}
  end.

Inductive fill := yellow_fill | green_fill | blue_fill.

(** [age is not None] followed by the [try] block: the number to compare,
    when there is one ([float('')] raises and the [except] passes). *)
Definition age_val (age : age_cell) : option Z :=
  match age with
  | AgeNumber a => Some a
  | AgeEmptyString => None
  | AgeNone => None
  end.

(** The body of the fill loop, lines 284-308: the fill given to the
    five cells of a row, if any. *)
Definition row_fill (row : sheet_row) : option fill :=
  let name := c_name row in
  let age := c_age row in
  let cat := c_cat row in
  if truthy name && truthy (strip name) && truthy cat then
    if PyStr.eqb cat (category_label Senior) || PyStr.eqb cat (category_label Child)
    then Some yellow_fill
    else if PyStr.eqb cat (category_label Adult) then
      match age_val age with
      | Some a => if ((23 <=? a) && (a <? 25))%Z then Some green_fill else None
      | None => None
      end
    else if PyStr.eqb cat (category_label Youth) then
      match age_val age with
      | Some a => if ((21 <=? a) && (a <? 23))%Z then Some blue_fill else None
      | None => None
      end
    else None
  else None.

(* ================================================================== *)
(** * [process_excel] *)

(** What stops [process_excel]: an error of [detect_columns], or
    [pd.concat] on an empty list of parts. *)
Inductive failure :=
| DetectionError (e : error)
| NoObjectsToConcatenate.

(** [process_excel] with [AUTO_DETECT = True], from the table read to the
    rows written, each with the fill of its five cells. *)
Definition process_excel (U : unicode_db) (today : date) (df : table)
  : failure + list (sheet_row * option fill) :=
  match detect_columns U df with
  | inl e => inl (DetectionError e)
  | inr (name_col, phone_col, id_col) =>
      match assemble (base_df U today df name_col phone_col id_col) with
      | None => inl NoObjectsToConcatenate
      | Some final_df =>
          inr (map (fun row => (render row, row_fill (render row))) final_df)
      end
  end.

(* ================================================================== *)
(** * The batch driver ([main])

    The file system is the state: the listing of [INPUT_DIR] (absent when
    it is no directory), what [read_excel] makes of each entry, and the
    files of [OUTPUT_DIR]. Nothing else changes the two directories during
    a run, and writing a report succeeds. *)

(** An entry of [INPUT_DIR]: its name, and the table [pd.read_excel] reads
    from it ([None] when it raises: no workbook, a directory, ...). *)
Record entry := { e_name : pystr; e_table : option table }.

(** A file of [OUTPUT_DIR]: a report written by [process_excel], or
    anything else that was there. *)
Inductive content :=
| Report (rows : list (sheet_row * option fill))
| Foreign.

Record world := {
  input_dir : option (list entry);
  output_dir : list (pystr * content)
}.

(** Why a file was not processed: [read_excel] raised, or [process_excel]
    stopped later. *)
Inductive file_error :=
| Unreadable
| Stopped (why : failure).

(** The lines [main] prints, one constructor per message. *)
Inductive event :=
| NoInputDir
| NoExcelFiles
| Skipped (filename : pystr)
| Completed (filename : pystr)
| Failed (filename : pystr) (e : file_error)
| AllDone.

(** How [main] ends: it returns, or [sys.exit(1)]. *)
Inductive exit_status := Returned | Exit1.

(** [s.endswith(suffix)] *)
Definition endswith (s suffix : pystr) : bool :=
  PyStr.eqb (skipn (length s - length suffix) s) suffix.

(** [os.path.exists(output_path)] *)
Definition output_exists (outputs : list (pystr * content)) (filename : pystr) : bool :=
  existsb (fun f => PyStr.eqb (fst f) filename) outputs.

Section Batch.
Variable U : unicode_db.
(** [str.lower()] of a code point beyond ASCII, from the Unicode database. *)
Variable lower : N -> list N.
Variable today : date.

Definition lower_char (c : N) : list N :=
  if between (ch "A") (ch "Z") c then [(c + 32)%N]
  else if (c <? 128)%N then [c]
  else lower c.

(** [s.lower()] *)
Definition py_lower (s : pystr) : pystr := flat_map lower_char s.

(** [f.lower().endswith('.xlsx')] *)
Definition is_xlsx (filename : pystr) : bool :=
  endswith (py_lower filename) (py ".xlsx").

(** The body of the loop over [excel_files]: the output directory and
    the messages after one file. *)
Definition main_step (state : list (pystr * content) * list event) (e : entry)
  : list (pystr * content) * list event :=
  let '(outputs, log) := state in
  let filename := e_name e in
  if output_exists outputs filename then (outputs, log ++ [Skipped filename])
  else
    match e_table e with
    | None => (outputs, log ++ [Failed filename Unreadable])
    | Some df =>
        match process_excel U today df with
        | inr rows => (outputs ++ [(filename, Report rows)], log ++ [Completed filename])
        | inl why => (outputs, log ++ [Failed filename (Stopped why)])
        end
    end.

(** [main] *)
Definition main (w : world) : exit_status * world * list event :=
  match input_dir w with
  | None => (Exit1, w, [NoInputDir])
  | Some entries =>
      let excel_files := filter (fun e => is_xlsx (e_name e)) entries in
      match excel_files with
      | [] => (Returned, w, [NoExcelFiles])
      | _ :: _ =>
          let '(outputs, log) := fold_left main_step excel_files (output_dir w, []) in
          (Returned, {| input_dir := input_dir w; output_dir := outputs |}, log ++ [AllDone])
      end
  end.

End Batch.

(* ================================================================== *)
(** * Vocabulary of the properties *)

(** [v] holds the text [w], which satisfies [P], right after [pre]. *)
Definition occurs_at (P : pystr -> bool) (v pre w : pystr) : Prop :=
  exists post, v = pre ++ w ++ post /\ P w = true.

Definition occurs (P : pystr -> bool) (v : pystr) : Prop :=
  exists pre w, occurs_at P v pre w.

(** [w] is the leftmost text of [v] that satisfies [P]. *)
Definition first_occurrence (P : pystr -> bool) (v w : pystr) : Prop :=
  exists pre, occurs_at P v pre w /\
              forall pre' w', occurs_at P v pre' w' -> length pre <= length pre'.

(** A value that is two to four han characters and nothing else. *)
Definition han_2_to_4 (v : pystr) : bool :=
  (2 <=? length v)%nat && (length v <=? 4)%nat && forallb is_han v.

(** The name predicate read as the specification words it: the value is
    trimmed before it is tested. *)
Definition name_pred_trimmed (v : pystr) : bool := han_2_to_4 (strip v).

(** The records of a band, and its two groups, in the order of [base]. *)
Definition in_band (b : band) (base : list record) : list record :=
  filter (fun r => band_eqb (r_cat r) b) base.
Definition band_main (b : band) (base : list record) : list record :=
  filter (fun r => negb (sub_condition b r)) (in_band b base).
Definition band_sub (b : band) (base : list record) : list record :=
  filter (sub_condition b) (in_band b base).

(** The rows of one band: nothing for an empty band; otherwise the main
    group, the sub group, the count, and a blank row unless the band is
    [Unknown], the last of [category_order]. *)
Definition band_section (base : list record) (b : band) : list out_row :=
  match in_band b base with
  | [] => []
  | _ :: _ =>
      map DataRow (band_main b base) ++ map DataRow (band_sub b base)
      ++ [CountRow b (length (in_band b base))]
      ++ (if band_eqb b Unknown then [] else [BlankRow])
  end.

(** A data row of band [b]. *)
Definition is_data_of (b : band) (row : out_row) : bool :=
  match row with
  | DataRow r => band_eqb (r_cat r) b
  | _ => false
  end.

(** The highlight classes of the specification and its policy
    [highlight(band, age)], in its words. *)
Inductive highlight_class := NoHighlight | CareFlag | TransitionA | TransitionB.

Definition highlight (b : band) (age : option Z) : highlight_class :=
  match b, age with
  | Child, _ | Senior, _ => CareFlag
  | Adult, Some a => if ((23 <=? a) && (a <? 25))%Z then TransitionA else NoHighlight
  | Youth, Some a => if ((21 <=? a) && (a <? 23))%Z then TransitionB else NoHighlight
  | _, _ => NoHighlight
  end.

(** The fill that renders a class: yellow, green, blue. *)
Definition fill_of (h : highlight_class) : option fill :=
  match h with
  | NoHighlight => None
  | CareFlag => Some yellow_fill
  | TransitionA => Some green_fill
  | TransitionB => Some blue_fill
  end.

(** Records for worked examples: a name, an age and the band of the age. *)
Definition person (name : pystr) (age : Z) : record :=
  {| r_name := name; r_phone := []; r_id := [];
     r_age := Some age; r_cat := age_category (Some age) |}.

(** The names 张三, 李四 and 王五. *)
Definition zhang_san : pystr := [0x5f20; 0x4e09]%N.
Definition li_si : pystr := [0x674e; 0x56db]%N.
Definition wang_wu : pystr := [0x738b; 0x4e94]%N.

(** The records of the assembly scenario: two adults of 24 and 40 and a
    child of 3. *)
Definition scenario_records : list record :=
  [person zhang_san 24; person li_si 40; person wang_wu 3].

(** The table of the detection scenario: names, phones and ID numbers in
    the columns X, Y and Z. *)
Definition scenario_table : table :=
  [ {| col_label := py "X"; col_cells := [Some zhang_san; Some li_si] |};
    {| col_label := py "Y";
       col_cells := [Some (py "13912345678"); Some (py "not a phone")] |};
    {| col_label := py "Z";
       col_cells := [Some (py "110101199001011234"); Some (py "bad")] |} ].

(** A table with an ID column and a column that holds a name and a phone
    number. *)
Definition id_and_mixed_table : table :=
  [ {| col_label := py "A";
       col_cells := [Some (py "110101199001011234"); Some (py "110101198505051234")] |};
    {| col_label := py "B";
       col_cells := [Some zhang_san; Some (py "13912345678")] |} ].

(** A table of one column that holds an ID number and a name. *)
Definition one_column_table : table :=
  [ {| col_label := py "A";
       col_cells := [Some (py "110101199001011234"); Some zhang_san] |} ].

(** A data frame is rectangular: its columns have one length. *)
Definition rectangular (df : table) : Prop :=
  exists rows, forall c, In c df -> length (col_cells c) = rows.

(** A date of the calendar [datetime] accepts. *)
Definition calendar_date (y m d : Z) : Prop :=
  (1 <= y <= 9999 /\ 1 <= m <= 12 /\ 1 <= d <= days_in_month y m)%Z.

(** [(m1, d1) < (m2, d2)], the order of tuples. *)
Definition lex_lt (m1 d1 m2 d2 : Z) : Prop :=
  (m1 < m2 \/ (m1 = m2 /\ d1 < d2))%Z.

(** The date [(y1, m1, d1)] is not after [(y2, m2, d2)]. *)
Definition not_after (y1 m1 d1 y2 m2 d2 : Z) : Prop :=
  (y1 < y2)%Z \/ (y1 = y2 /\ ~ lex_lt m2 d2 m1 d1).

Section IdWords.
Variable U : unicode_db.

(** The year, month and day an ID number embeds: its characters 6 to 13
    read as YYYYMMDD. *)
Definition birth_year (id_card : pystr) : Z := int_of_digits U (slice 6 10 id_card).
Definition birth_month (id_card : pystr) : Z := int_of_digits U (slice 10 12 id_card).
Definition birth_day (id_card : pystr) : Z := int_of_digits U (slice 12 14 id_card).

Definition birth_is_calendar_date (id_card : pystr) : Prop :=
  calendar_date (birth_year id_card) (birth_month id_card) (birth_day id_card).

(** The character pairs the ID pattern accepts as a century, a month and a day. *)
Definition century_chars (y1 y2 : N) : bool :=
  ((ch "1" =? y1) && (ch "9" =? y2) || (ch "2" =? y1) && (ch "0" =? y2))%N.
Definition month_chars (m1 m2 : N) : bool :=
  ((ch "0" =? m1)%N && between (ch "1") (ch "9") m2)
  || ((ch "1" =? m1)%N && between (ch "0") (ch "2") m2).
Definition day_chars (a1 a2 : N) : bool :=
  ((ch "0" =? a1)%N && between (ch "1") (ch "9") a2)
  || (((a1 =? ch "1") || (a1 =? ch "2"))%N && is_digit U a2)
  || ((ch "3" =? a1)%N && ((a2 =? ch "0") || (a2 =? ch "1"))%N).

End IdWords.

Section PhoneWords.
Variable U : unicode_db.

(** An 11-character phone text: '1', one of '3'..'9', then nine digits. *)
Definition phone_window (w : pystr) : bool :=
  match w with
  | a :: b :: rest =>
      (ch "1" =? a)%N && between (ch "3") (ch "9") b
      && (length rest =? 9)%nat && forallb (is_digit U) rest
  | _ => false
  end.

(** The maximal runs of digits of [s], [cur] being the run under way
    (last digit first). *)
Fixpoint digit_runs (s cur : pystr) : list pystr :=
  match s with
  | [] => [rev cur]
  | c :: s' =>
      if is_digit U c then digit_runs s' (c :: cur)
      else rev cur :: digit_runs s' []
  end.

(** The phone predicate read as "a run of exactly 11 digits": a longer
    run of digits does not qualify. *)
Definition exactly_11_digits (v : pystr) : bool :=
  existsb phone_window (digit_runs v []).

End PhoneWords.

(** The world a run of [main] leaves, and the messages it prints. *)
Definition world_after (U : unicode_db) (lower : N -> list N) (today : date)
    (w : world) : world :=
  snd (fst (main U lower today w)).

(** The report [process_excel] writes for an entry, if it writes one. *)
Definition report_of (U : unicode_db) (today : date) (e : entry)
  : list (pystr * content) :=
  match e_table e with
  | Some df =>
      match process_excel U today df with
      | inr rows => [(e_name e, Report rows)]
      | inl _ => []
      end
  | None => []
  end.

(** The message for an entry that is processed, or skipped because
    [outputs] has a file of its name. *)
Definition event_for (U : unicode_db) (today : date)
    (outputs : list (pystr * content)) (e : entry) : event :=
  if output_exists outputs (e_name e) then Skipped (e_name e)
  else
    match e_table e with
    | None => Failed (e_name e) Unreadable
    | Some df =>
        match process_excel U today df with
        | inr _ => Completed (e_name e)
        | inl why => Failed (e_name e) (Stopped why)
        end
    end.


(** [final] has a file for every name [outputs] has one for. *)
Definition covers (final outputs : list (pystr * content)) : Prop :=
  forall f, output_exists outputs f = true -> output_exists final f = true.

(** The records of the data rows of a report, in order. *)
Definition records_of (rows : list out_row) : list record :=
  flat_map (fun row => match row with DataRow r => [r] | _ => [] end) rows.

(** The bands that have records. *)
Definition bands_with_records (base : list record) : list band :=
  filter (fun b => negb (is_empty (in_band b base))) category_order.

(** [str.upper()] leaves the decimal digits beyond ASCII as they are, as
    it does in the Unicode database (digits have no case). *)
Definition upper_keeps_digits (U : unicode_db) : Prop :=
  forall c v, decimal U c = Some v -> upper U c = [c].

(** A canonical ID text: 18 characters, 17 digits and a last character
    that is a digit or 'X'; the first is not '0', and the characters 6-7,
    10-11 and 12-13 are a century, a month and a day of the ID pattern. *)
Definition id_window (U : unicode_db) (w : pystr) : Prop :=
  length w = 18
  /\ forallb (is_digit U) (firstn 17 w) = true
  /\ (is_digit U (nth 17 w 0%N) = true \/ nth 17 w 0%N = ch "X")
  /\ between (ch "1") (ch "9") (nth 0 w 0%N) = true
  /\ century_chars (nth 6 w 0%N) (nth 7 w 0%N) = true
  /\ month_chars (nth 10 w 0%N) (nth 11 w 0%N) = true
  /\ day_chars U (nth 12 w 0%N) (nth 13 w 0%N) = true.

(** A fragment of the Unicode database for worked examples: the
    Arabic-Indic digits U+0660..U+0669 and the fullwidth digits
    U+FF10..U+FF19, and an [upper] that changes nothing beyond ASCII. *)
Definition sample_decimal (c : N) : option N :=
  if between 0x660 0x669 c then Some (c - 0x660)%N
  else if between 0xFF10 0xFF19 c then Some (c - 0xFF10)%N
  else None.

Lemma between_true lo hi c : between lo hi c = true <-> (lo <= c <= hi)%N.
Proof.
  unfold between. rewrite andb_true_iff, !N.leb_le. tauto.
Qed.

Lemma beyond_0x660_not_space c : (0x660 <= c < 0x1680 \/ 0x3000 < c)%N -> is_space c = false.
Proof.
  intros H. unfold is_space, between.
  repeat (apply orb_false_intro);
    try (apply N.eqb_neq; lia);
    apply andb_false_iff; rewrite !N.leb_gt; lia.
Qed.

Lemma sample_decimal_sound c v :
  sample_decimal c = Some v -> (v < 10)%N /\ (128 <= c)%N /\ is_space c = false.
Proof.
  unfold sample_decimal.
  destruct (between 0x660 0x669 c) eqn:E1; [ | destruct (between 0xFF10 0xFF19 c) eqn:E2 ];
    try discriminate; intros [= <-].
  - apply between_true in E1. repeat split; try lia.
    apply beyond_0x660_not_space; lia.
  - apply between_true in E2. repeat split; try lia.
    apply beyond_0x660_not_space; lia.
Qed.

Definition sample_db : unicode_db :=
  {| decimal := sample_decimal;
     upper := fun c => [c];
     decimal_sound := sample_decimal_sound |}.

(* ================================================================== *)
(** * Properties of the matcher *)

Section MatcherFacts.

Lemma run_sound (A : Type) (r : regex) :
  forall (s : pystr) (k : pystr -> option A) (a : A),
    run r s k = Some a ->
    exists w rest, s = w ++ rest /\ matches r w /\ k rest = Some a.
Proof.
  induction r as [ | p | r1 IH1 r2 IH2 | r1 IH1 r2 IH2 ]; simpl; intros s k a H.
  - exists [], s. repeat split; [constructor | assumption].
  - destruct s as [ | c s']; [discriminate | ].
    destruct (p c) eqn:Hp; [ | discriminate ].
    exists [c], s'. repeat split; [now constructor | assumption].
  - apply IH1 in H. destruct H as (w1 & rest1 & -> & M1 & H).
    apply IH2 in H. destruct H as (w2 & rest2 & -> & M2 & H).
    exists (w1 ++ w2), rest2. rewrite <- app_assoc.
    repeat split; [now constructor | assumption].
  - destruct (run r1 s k) as [a1 | ] eqn:E1.
    + injection H as <-. apply IH1 in E1. destruct E1 as (w & rest & -> & M & E1).
      exists w, rest. repeat split; [now apply m_alt_l | assumption].
    + apply IH2 in H. destruct H as (w & rest & -> & M & H).
      exists w, rest. repeat split; [now apply m_alt_r | assumption].
Qed.

Lemma run_complete (A : Type) (r : regex) (w : pystr) :
  matches r w ->
  forall (rest : pystr) (k : pystr -> option A),
    k rest <> None -> run r (w ++ rest) k <> None.
Proof.
  induction 1 as [ | p c Hp | r1 r2 w1 w2 _ IH1 _ IH2 | r1 r2 w _ IH | r1 r2 w _ IH ];
    simpl; intros rest k Hk.
  - assumption.
  - now rewrite Hp.
  - rewrite <- app_assoc. apply IH1. now apply IH2.
  - specialize (IH rest k Hk). now destruct (run r1 (w ++ rest) k).
  - specialize (IH rest k Hk). now destruct (run r1 (w ++ rest) k).
Qed.

(** [re.match] succeeds exactly when a prefix is a word of the pattern. *)
Lemma re_match_some (r : regex) (s rest : pystr) :
  re_match r s = Some rest -> exists w, s = w ++ rest /\ matches r w.
Proof.
  unfold re_match. intros H. apply run_sound in H.
  destruct H as (w & rest' & -> & M & [= ->]). now exists w.
Qed.

Lemma re_match_none (r : regex) (w rest : pystr) :
  matches r w -> re_match r (w ++ rest) <> None.
Proof.
  intros M. unfold re_match. now apply run_complete.
Qed.

Lemma re_fullmatch_iff (r : regex) (s : pystr) :
  re_fullmatch r s = true <-> matches r s.
Proof.
  unfold re_fullmatch. split.
  - destruct (run r s _) as [ [] | ] eqn:E; [ | discriminate ]. intros _.
    apply run_sound in E. destruct E as (w & rest & -> & M & E).
    destruct rest; [ | discriminate ]. now rewrite app_nil_r.
  - intros M.
    assert (H := run_complete unit r s M []
                   (fun rest => match rest with [] => Some tt | _ :: _ => None end)).
    rewrite app_nil_r in H.
    destruct (run r s _); [reflexivity | exfalso; apply H; [discriminate | reflexivity] ].
Qed.

Lemma re_search_unfold (r : regex) (s : pystr) :
  re_search r s =
  match re_match r s with
  | Some rest => Some (firstn (length s - length rest) s)
  | None => match s with [] => None | _ :: s' => re_search r s' end
  end.
Proof.
  destruct s; reflexivity.
Qed.

Lemma re_match_group (r : regex) (s rest : pystr) :
  re_match r s = Some rest ->
  exists w, s = w ++ rest /\ matches r w /\ firstn (length s - length rest) s = w.
Proof.
  intros H. apply re_match_some in H. destruct H as (w & -> & M).
  exists w. repeat split; [assumption | ].
  rewrite length_app, Nat.add_sub, firstn_app, Nat.sub_diag, firstn_all.
  apply app_nil_r.
Qed.

(** The text [re.search] returns is a word of the pattern inside the
    string, and no word of the pattern starts before it. *)
Lemma re_search_some (r : regex) :
  forall (s m : pystr),
    re_search r s = Some m ->
    exists pre post,
      s = pre ++ m ++ post /\ matches r m /\
      forall pre' m' post', s = pre' ++ m' ++ post' -> matches r m' ->
                            length pre <= length pre'.
Proof.
  induction s as [ | c s IH ]; intros m; rewrite re_search_unfold;
    destruct (re_match r _) as [rest | ] eqn:E; try discriminate.
  - intros H. apply re_match_group in E. destruct E as (w & E & M & G).
    rewrite G in H. injection H as <-.
    exists [], rest. repeat split; [assumption | assumption | simpl; lia].
  - intros H. apply re_match_group in E. destruct E as (w & E & M & G).
    rewrite G in H. injection H as <-.
    exists [], rest. repeat split; [assumption | assumption | simpl; lia].
  - intros H. apply IH in H. destruct H as (pre & post & -> & M & Hmin).
    exists (c :: pre), post. repeat split; [assumption | ].
    intros pre' m' post' Heq M'. destruct pre' as [ | c' pre'].
    + exfalso. simpl in Heq. rewrite Heq in E. now apply (re_match_none r m' post') in M'.
    + injection Heq as _ Heq. simpl. apply le_n_S. now apply (Hmin pre' m' post').
Qed.

Lemma re_search_none (r : regex) :
  forall (s : pystr),
    re_search r s = None ->
    forall pre m post, s = pre ++ m ++ post -> ~ matches r m.
Proof.
  induction s as [ | c s IH ]; rewrite re_search_unfold;
    destruct (re_match r _) eqn:E; try discriminate; intros H pre m post Heq M.
  - symmetry in Heq. apply app_eq_nil in Heq. destruct Heq as [-> Heq].
    apply app_eq_nil in Heq. destruct Heq as [-> ->].
    now apply (re_match_none r [] []) in M.
  - destruct pre as [ | c' pre].
    + simpl in Heq. rewrite Heq in E. now apply (re_match_none r m post) in M.
    + injection Heq as _ Heq. now apply (IH H pre m post Heq).
Qed.

Lemma re_search_found (r : regex) (pre m post : pystr) :
  matches r m -> re_search r (pre ++ m ++ post) <> None.
Proof.
  intros M H. exact (re_search_none r _ H pre m post eq_refl M).
Qed.

End MatcherFacts.

Section PatternWords.

Lemma matches_eps_inv (w : pystr) : matches Eps w <-> w = [].
Proof.
  split; [ now inversion 1 | intros ->; constructor ].
Qed.

Lemma matches_cls_inv (p : N -> bool) (w : pystr) :
  matches (Cls p) w <-> exists c, w = [c] /\ p c = true.
Proof.
  split.
  - inversion 1; subst. now exists c.
  - intros (c & -> & Hp). now constructor.
Qed.

Lemma matches_cat_inv (r1 r2 : regex) (w : pystr) :
  matches (Cat r1 r2) w <->
  exists w1 w2, w = w1 ++ w2 /\ matches r1 w1 /\ matches r2 w2.
Proof.
  split.
  - inversion 1; subst. now exists w1, w2.
  - intros (w1 & w2 & -> & M1 & M2). now constructor.
Qed.

Lemma matches_alt_inv (r1 r2 : regex) (w : pystr) :
  matches (Alt r1 r2) w <-> matches r1 w \/ matches r2 w.
Proof.
  split.
  - inversion 1; subst; tauto.
  - intros [M | M]; [now apply m_alt_l | now apply m_alt_r].
Qed.

(** A word of [Cls p] followed by [r]. *)
Lemma matches_cls_cat (p : N -> bool) (r : regex) (w : pystr) :
  matches (Cat (Cls p) r) w <->
  exists c w', w = c :: w' /\ p c = true /\ matches r w'.
Proof.
  rewrite matches_cat_inv. split.
  - intros (w1 & w2 & -> & M1 & M2). apply matches_cls_inv in M1.
    destruct M1 as (c & -> & Hp). now exists c, w2.
  - intros (c & w' & -> & Hp & M). exists [c], w'.
    repeat split; [now constructor | assumption].
Qed.

(** The words of [p{n}] followed by [r]. *)
Lemma matches_rep_cat (p : N -> bool) (r : regex) :
  forall (n : nat) (w : pystr),
    matches (Cat (rep n (Cls p)) r) w <->
    exists w1 w2, w = w1 ++ w2 /\ length w1 = n /\ forallb p w1 = true /\ matches r w2.
Proof.
  induction n as [ | n IH ]; intros w; simpl.
  - rewrite matches_cat_inv. split.
    + intros (w1 & w2 & -> & M1 & M2). apply matches_eps_inv in M1. subst.
      now exists [], w2.
    + intros (w1 & w2 & -> & Hl & _ & M). destruct w1; [ | discriminate ].
      exists [], w2. repeat split; [constructor | assumption].
  - rewrite matches_cat_inv. split.
    + intros (w1 & w2 & -> & M1 & M2). apply matches_cls_cat in M1.
      destruct M1 as (c & w' & -> & Hp & M1).
      assert (M : matches (Cat (rep n (Cls p)) r) (w' ++ w2)) by now constructor.
      apply IH in M. destruct M as (u1 & u2 & E & Hl & Hf & M).
      exists (c :: u1), u2. simpl. rewrite Hp, Hl, <- E. now repeat split.
    + intros (w1 & w2 & -> & Hl & Hf & M). destruct w1 as [ | c w1]; [discriminate | ].
      simpl in Hl, Hf. injection Hl as Hl. apply andb_true_iff in Hf. destruct Hf as [Hp Hf].
      assert (M' : matches (Cat (rep n (Cls p)) r) (w1 ++ w2)).
      { apply IH. now exists w1, w2. }
      apply matches_cat_inv in M'. destruct M' as (u1 & u2 & E & Mu1 & Mu2).
      exists (c :: u1), u2. simpl. rewrite E. repeat split; [ | assumption ].
      apply matches_cls_cat. now exists c, u1.
Qed.

Lemma matches_rep_cat_eps (p : N -> bool) (n : nat) (w : pystr) :
  matches (Cat (rep n (Cls p)) Eps) w <-> length w = n /\ forallb p w = true.
Proof.
  rewrite matches_rep_cat. split.
  - intros (w1 & w2 & -> & Hl & Hf & M). apply matches_eps_inv in M. subst.
    now rewrite app_nil_r.
  - intros [Hl Hf]. exists w, []. rewrite app_nil_r.
    repeat split; [assumption | assumption | constructor].
Qed.

End PatternWords.

(* ================================================================== *)
(** * Whitespace stripping *)

Section StripFacts.

Lemma lstrip_app_nonspace (c : N) (b : pystr) :
  is_space c = false ->
  forall a, lstrip (a ++ c :: b) = lstrip a ++ c :: b.
Proof.
  intros Hc. induction a as [ | d a IH ]; simpl.
  - now rewrite Hc.
  - destruct (is_space d); [assumption | reflexivity].
Qed.

Lemma rstrip_app_nonspace (c : N) (b : pystr) :
  is_space c = false ->
  forall a, rstrip (a ++ c :: b) = a ++ c :: rstrip b.
Proof.
  intros Hc. induction a as [ | d a IH ]; simpl.
  - rewrite Hc. now destruct (rstrip b).
  - rewrite IH. now destruct a.
Qed.

Lemma lstrip_suffix (s : pystr) : exists lead, s = lead ++ lstrip s.
Proof.
  induction s as [ | c s (lead & IH) ]; simpl.
  - now exists [].
  - destruct (is_space c).
    + exists (c :: lead). simpl. now rewrite <- IH.
    + now exists [].
Qed.

Lemma rstrip_prefix (s : pystr) : exists trail, s = rstrip s ++ trail.
Proof.
  induction s as [ | c s (trail & IH) ]; simpl.
  - now exists [].
  - destruct (rstrip s) as [ | k kept ].
    + destruct (is_space c).
      * now exists (c :: s).
      * exists s. reflexivity.
    + exists trail. simpl. f_equal. exact IH.
Qed.

Lemma lstrip_head (s : pystr) :
  lstrip s = [] \/ exists c t, lstrip s = c :: t /\ is_space c = false.
Proof.
  induction s as [ | c s IH ]; simpl.
  - now left.
  - destruct (is_space c) eqn:Hc; [assumption | ]. right. now exists c, s.
Qed.

Lemma rstrip_last (s : pystr) :
  rstrip s = [] \/ exists t c, rstrip s = t ++ [c] /\ is_space c = false.
Proof.
  induction s as [ | c s IH ]; simpl.
  - now left.
  - destruct IH as [-> | (t & d & -> & Hd)].
    + destruct (is_space c) eqn:Hc; [now left | ]. right. now exists [], c.
    + right. exists (c :: t), d. split; [ | assumption ]. now destruct t.
Qed.

Lemma rstrip_idem (s : pystr) : rstrip (rstrip s) = rstrip s.
Proof.
  destruct (rstrip_last s) as [-> | (t & c & -> & Hc)]; [reflexivity | ].
  now rewrite rstrip_app_nonspace.
Qed.

Lemma rstrip_cons_nonspace (c : N) (t : pystr) :
  is_space c = false -> rstrip (c :: t) = c :: rstrip t.
Proof.
  intros Hc. exact (rstrip_app_nonspace c t Hc []).
Qed.

Lemma strip_idem (s : pystr) : strip (strip s) = strip s.
Proof.
  unfold strip.
  destruct (lstrip_head s) as [-> | (c & t & -> & Hc)]; [reflexivity | ].
  rewrite (rstrip_cons_nonspace c t Hc). simpl lstrip. rewrite Hc.
  rewrite (rstrip_cons_nonspace c (rstrip t) Hc). now rewrite rstrip_idem.
Qed.

(** A text inside [v] that neither starts nor ends with whitespace is
    inside [v.strip()], at the same distance from the first character
    that is kept. *)
Lemma strip_window (v pre post init mid : pystr) (c1 cl : N) :
  is_space c1 = false -> is_space cl = false ->
  c1 :: mid = init ++ [cl] ->
  v = pre ++ (c1 :: mid) ++ post ->
  strip v = lstrip pre ++ (c1 :: mid) ++ rstrip post
  /\ length pre = length (lstrip pre) + (length v - length (lstrip v)).
Proof.
  intros H1 Hl Hm ->. unfold strip. simpl.
  rewrite (lstrip_app_nonspace c1 (mid ++ post) H1 pre). split.
  - change (lstrip pre ++ c1 :: mid ++ post) with (lstrip pre ++ (c1 :: mid) ++ post).
    rewrite Hm, <- app_assoc. simpl. rewrite app_assoc.
    rewrite (rstrip_app_nonspace cl post Hl).
    change (c1 :: mid ++ rstrip post) with ((c1 :: mid) ++ rstrip post).
    rewrite Hm, <- !app_assoc. reflexivity.
  - rewrite !length_app. simpl. rewrite length_app.
    destruct (lstrip_suffix pre) as (lead & E).
    rewrite E at 1 3. rewrite length_app. lia.
Qed.

End StripFacts.

(* ================================================================== *)
(** * Phone numbers *)

Section PhoneFacts.
Variable U : unicode_db.

Lemma is_digit_not_space (c : N) : is_digit U c = true -> is_space c = false.
Proof.
  unfold is_digit. intros H. apply orb_true_iff in H. destruct H as [H | H].
  - apply between_true in H. unfold ch in H. simpl in H.
    unfold is_space, between.
    repeat (apply orb_false_intro);
      try (apply N.eqb_neq; lia);
      apply andb_false_iff; rewrite !N.leb_gt; lia.
  - destruct (decimal U c) as [v | ] eqn:E; [ | discriminate ].
    now apply decimal_sound in E.
Qed.

Lemma matches_phone (w : pystr) :
  matches (phone_re U) w <-> phone_window U w = true.
Proof.
  change (phone_re U) with
    (Cat (Cls (N.eqb (ch "1")))
         (Cat (Cls (between (ch "3") (ch "9"))) (Cat (rep 9 (Cls (is_digit U))) Eps))).
  rewrite matches_cls_cat. split.
  - intros (a & w1 & -> & Ha & M). apply matches_cls_cat in M.
    destruct M as (b & w2 & -> & Hb & M).
    apply (proj1 (matches_rep_cat_eps _ _ _)) in M. destruct M as [Hl Hf].
    unfold phone_window. rewrite Ha, Hb, Hl, Hf. reflexivity.
  - destruct w as [ | a [ | b rest ] ]; try discriminate. unfold phone_window.
    rewrite !andb_true_iff, Nat.eqb_eq. intros [[[Ha Hb] Hl] Hf].
    exists a, (b :: rest). repeat split; [assumption | ].
    apply matches_cls_cat. exists b, rest. repeat split; [assumption | ].
    now apply matches_rep_cat_eps.
Qed.

Lemma phone_window_ends (w : pystr) :
  phone_window U w = true ->
  exists c1 mid init cl,
    w = c1 :: mid /\ c1 :: mid = init ++ [cl]
    /\ is_space c1 = false /\ is_space cl = false.
Proof.
  destruct w as [ | a [ | b rest ] ]; try discriminate. unfold phone_window.
  rewrite !andb_true_iff, Nat.eqb_eq. intros [[[Ha Hb] Hl] Hf].
  assert (Hne : rest <> []) by (intros ->; discriminate).
  exists a, (b :: rest), (a :: b :: removelast rest), (last rest 0%N).
  repeat split.
  - simpl. do 2 f_equal. now apply app_removelast_last.
  - apply N.eqb_eq in Ha. now subst a.
  - apply is_digit_not_space. rewrite forallb_forall in Hf. apply Hf.
    destruct (exists_last Hne) as (l & x & ->). rewrite last_last.
    apply in_or_app. right. now left.
Qed.

Lemma phone_search_window (s m : pystr) :
  re_search (phone_re U) s = Some m ->
  first_occurrence (phone_window U) s m.
Proof.
  intros H. apply re_search_some in H. destruct H as (pre & post & E & M & Hmin).
  exists pre. split.
  - exists post. split; [assumption | now apply matches_phone].
  - intros pre' w' (post' & E' & W'). apply (Hmin pre' w' post' E').
    now apply matches_phone.
Qed.

Lemma phone_search_found (s : pystr) :
  occurs (phone_window U) s -> re_search (phone_re U) s <> None.
Proof.
  intros (pre & w & post & -> & W). apply re_search_found. now apply matches_phone.
Qed.

(** Windows of [v] and of [v.strip()] are the same texts, [lead]
    characters apart. *)
Lemma phone_window_stripped (v pre w : pystr) :
  occurs_at (phone_window U) v pre w ->
  occurs_at (phone_window U) (strip v) (lstrip pre) w
  /\ length pre = length (lstrip pre) + (length v - length (lstrip v)).
Proof.
  intros (post & E & W).
  destruct (phone_window_ends w W) as (c1 & mid & init & cl & -> & Hm & H1 & Hl).
  destruct (strip_window v pre post init mid c1 cl H1 Hl Hm E) as [Es Hlen].
  split; [ | assumption ]. exists (rstrip post). now split.
Qed.

Lemma phone_window_unstripped (v pre w : pystr) :
  occurs_at (phone_window U) (strip v) pre w ->
  exists lead, occurs_at (phone_window U) v (lead ++ pre) w
               /\ length lead = length v - length (lstrip v).
Proof.
  intros (post & E & W).
  destruct (lstrip_suffix v) as (lead & E1).
  destruct (rstrip_prefix (lstrip v)) as (trail & E2).
  exists lead. split.
  - exists (post ++ trail). split; [ | assumption ].
    rewrite E1 at 1. rewrite E2. fold (strip v). rewrite E.
    now rewrite <- !app_assoc.
  - assert (Hlen : length v = length lead + length (lstrip v))
      by (rewrite E1 at 1; apply length_app).
    lia.
Qed.

End PhoneFacts.

Section CleanPhone.
Variable U : unicode_db.

Lemma clean_phone_search (v : pystr) :
  clean_phone U v = group_or_empty (re_search (phone_re U) (strip v)).
Proof.
  destruct v; reflexivity.
Qed.

Lemma phone_window_nonempty (w : pystr) : phone_window U w = true -> w <> [].
Proof.
  now destruct w.
Qed.

Lemma clean_phone_found (v : pystr) :
  occurs (phone_window U) v ->
  first_occurrence (phone_window U) v (clean_phone U v).
Proof.
  intros (pre & w & Hw). rewrite clean_phone_search.
  destruct (phone_window_stripped U v pre w Hw) as [Hs _].
  destruct (re_search (phone_re U) (strip v)) as [m | ] eqn:E.
  - simpl. apply phone_search_window in E. destruct E as (p & Hp & Hmin).
    destruct (phone_window_unstripped U v p m Hp) as (lead & Hv & Hlead).
    exists (lead ++ p). split; [assumption | ].
    intros pre' w' Hw'.
    destruct (phone_window_stripped U v pre' w' Hw') as [Hs' Hlen'].
    specialize (Hmin _ _ Hs'). rewrite length_app. lia.
  - exfalso. apply (phone_search_found U (strip v)); [ | assumption ].
    now exists (lstrip pre), w.
Qed.

Lemma clean_phone_empty (v : pystr) :
  ~ occurs (phone_window U) v -> clean_phone U v = [].
Proof.
  intros Hno. rewrite clean_phone_search.
  destruct (re_search (phone_re U) (strip v)) as [m | ] eqn:E; [ | reflexivity ].
  exfalso. apply Hno. apply phone_search_window in E. destruct E as (p & Hp & _).
  destruct (phone_window_unstripped U v p m Hp) as (lead & Hv & _).
  now exists (lead ++ p), m.
Qed.

(** C3, as the code has it: [clean_phone] and the phone predicate of the
    detection succeed exactly on the values that hold an 11-character text
    made of '1', a character of '3'..'9' and nine digits, whatever stands
    around it (more digits included); [clean_phone] returns the leftmost
    such text, and the empty string when there is none. *)
Theorem clean_phone_first_window (v : pystr) :
  (clean_phone U v <> [] <-> occurs (phone_window U) v)
  /\ (phone_hit U v = true <-> occurs (phone_window U) v)
  /\ (occurs (phone_window U) v ->
      first_occurrence (phone_window U) v (clean_phone U v))
  /\ (~ occurs (phone_window U) v -> clean_phone U v = []).
Proof.
  assert (Hdec : occurs (phone_window U) v \/ ~ occurs (phone_window U) v).
  { destruct (re_search (phone_re U) v) as [m | ] eqn:E.
    - left. apply phone_search_window in E. destruct E as (p & Hp & _). now exists p, m.
    - right. intros (pre & w & post & Ev & W).
      apply (re_search_none _ _ E pre w post Ev). now apply matches_phone. }
  repeat split.
  - intros Hne. destruct Hdec as [H | H]; [assumption | ].
    now apply clean_phone_empty in H.
  - intros H. apply clean_phone_found in H. destruct H as (pre & (post & _ & W) & _).
    now apply phone_window_nonempty in W.
  - unfold phone_hit. intros H. destruct Hdec as [Ho | Hno]; [assumption | ].
    destruct (re_search (phone_re U) v) as [m | ] eqn:E; [ | discriminate ].
    apply phone_search_window in E. destruct E as (p & Hp & _).
    exfalso. apply Hno. now exists p, m.
  - unfold phone_hit. intros H. apply phone_search_found in H.
    now destruct (re_search (phone_re U) v).
  - apply clean_phone_found.
  - apply clean_phone_empty.
Qed.

End CleanPhone.

(** C3, as the specification words it, fails on an 18-digit ID number:
    it has no run of exactly 11 digits, and [clean_phone] and the
    detection predicate still find a phone number in it. *)
Lemma clean_phone_inside_longer_run :
  exactly_11_digits sample_db (py "110101199001011234") = false
  /\ clean_phone sample_db (py "110101199001011234") = py "19900101123"
  /\ phone_hit sample_db (py "110101199001011234") = true.
Proof.
  repeat split; vm_compute; reflexivity.
Qed.

(* ================================================================== *)
(** * The name predicate of the detection *)

Section NameFacts.

Lemma name_hit_han (v : pystr) : name_hit v = han_2_to_4 v.
Proof.
  unfold name_hit, re_fullmatch, name_re, han_2_to_4.
  destruct v as [ | a [ | b [ | c [ | d [ | e v ] ] ] ] ];
    cbn [run rep upto length forallb Nat.leb andb];
    repeat match goal with
           | |- context [is_han ?x] => destruct (is_han x)
           end;
    reflexivity.
Qed.

Lemma space_not_han (c : N) : is_space c = true -> is_han c = false.
Proof.
  intros H. unfold is_han. destruct (between 0x4e00 0x9fa5 c) eqn:E; [ | reflexivity ].
  apply between_true in E. rewrite beyond_0x660_not_space in H; [discriminate | lia].
Qed.

(** C4, as the code has it: the detection tests the value as it stands.
    The name predicate holds exactly when the whole value, untrimmed, is two
    to four characters of U+4E00..U+9FA5; a value with whitespace before or
    after the name does not count. *)
Theorem name_hit_untrimmed (v : pystr) :
  name_hit v = han_2_to_4 v
  /\ forall c, is_space c = true ->
               name_hit (c :: v) = false /\ name_hit (v ++ [c]) = false.
Proof.
  split; [apply name_hit_han | ]. intros c Hc. apply space_not_han in Hc.
  rewrite !name_hit_han. unfold han_2_to_4. split.
  - simpl forallb. rewrite Hc. now rewrite andb_false_r.
  - rewrite forallb_app. simpl. rewrite Hc. now rewrite !andb_false_r.
Qed.

End NameFacts.

(** C4, as the specification words it, fails on a name with a leading
    space: trimmed it is two han characters, and the detection does not
    count it. The value is " 张三". *)
Lemma name_hit_leading_space :
  name_pred_trimmed [0x20; 0x5f20; 0x4e09]%N = true
  /\ name_hit [0x20; 0x5f20; 0x4e09]%N = false.
Proof.
  split; vm_compute; reflexivity.
Qed.

(* ================================================================== *)
(** * ID numbers and the birth date they embed *)

(** Decide a condition of the goal from a hypothesis or by evaluation. *)
Ltac decide_condition :=
  match goal with
  | H : ?b = _ |- context [if ?b then _ else _] => rewrite H
  | |- context [if ?b then _ else _] =>
      let v := eval vm_compute in b in
      match v with
      | true => change b with true
      | false => change b with false
      end
  end; cbv iota.

Section IdFacts.
Variable U : unicode_db.

Lemma matches_pair (p q : N -> bool) (w : pystr) :
  matches (cat [Cls p; Cls q]) w <-> exists a b, w = [a; b] /\ p a = true /\ q b = true.
Proof.
  unfold cat. simpl. rewrite matches_cls_cat. split.
  - intros (a & w' & -> & Ha & M). apply matches_cls_cat in M.
    destruct M as (b & w'' & -> & Hb & M). apply matches_eps_inv in M. subst.
    now exists a, b.
  - intros (a & b & -> & Ha & Hb). exists a, [b]. repeat split; [assumption | ].
    apply matches_cls_cat. exists b, []. repeat split; [assumption | constructor].
Qed.

(** The shape of the words of the ID pattern around the birth date. *)
Lemma id_shape (w : pystr) :
  matches (id_re U) w ->
  exists c0 d5 y1 y2 y3 y4 m1 m2 a1 a2 tail,
    w = c0 :: d5 ++ [y1; y2; y3; y4; m1; m2; a1; a2] ++ tail
    /\ length d5 = 5
    /\ century_chars y1 y2 = true
    /\ is_digit U y3 = true /\ is_digit U y4 = true
    /\ month_chars m1 m2 = true
    /\ day_chars U a1 a2 = true.
Proof.
  unfold id_re, id_body. cbn [app cat fold_right alt]. fold (cat [lit "1"; lit "9"]).
  intros M. apply matches_cls_cat in M. destruct M as (c0 & w1 & -> & _ & M).
  apply (proj1 (matches_rep_cat _ _ _ _)) in M.
  destruct M as (d5 & w2 & -> & Hd5 & _ & M).
  apply matches_cat_inv in M. destruct M as (wy & w3 & -> & My & M).
  apply (proj1 (matches_rep_cat _ _ _ _)) in M.
  destruct M as (y34 & w4 & -> & Hy34 & Hy & M).
  apply matches_cat_inv in M. destruct M as (wm & w5 & -> & Mm & M).
  apply matches_cat_inv in M. destruct M as (wd & tail & -> & Md & _).
  destruct y34 as [ | y3 [ | y4 [ | ] ] ]; try discriminate.
  simpl in Hy. apply andb_true_iff in Hy. destruct Hy as [Hy3 Hy4].
  rewrite andb_true_r in Hy4.
  assert (Hc : exists y1 y2, wy = [y1; y2] /\ century_chars y1 y2 = true).
  { apply matches_alt_inv in My.
    destruct My as [My | My]; apply matches_pair in My;
      destruct My as (y1 & y2 & -> & H1 & H2); exists y1, y2;
      (split; [reflexivity | ]); unfold century_chars; rewrite H1, H2;
      [reflexivity | apply orb_true_r]. }
  destruct Hc as (y1 & y2 & -> & Hc).
  assert (Hm : exists m1 m2, wm = [m1; m2] /\ month_chars m1 m2 = true).
  { apply matches_alt_inv in Mm.
    destruct Mm as [Mm | Mm]; apply matches_pair in Mm;
      destruct Mm as (m1 & m2 & -> & H1 & H2); exists m1, m2;
      (split; [reflexivity | ]); unfold month_chars; rewrite H1, H2;
      [reflexivity | apply orb_true_r]. }
  destruct Hm as (m1 & m2 & -> & Hm).
  assert (Hd : exists a1 a2, wd = [a1; a2] /\ day_chars U a1 a2 = true).
  { apply matches_alt_inv in Md. destruct Md as [Md | Md];
      [ | apply matches_alt_inv in Md; destruct Md as [Md | Md] ];
      apply matches_pair in Md; destruct Md as (a1 & a2 & -> & H1 & H2);
      exists a1, a2; (split; [reflexivity | ]); unfold day_chars.
    - now rewrite H1, H2.
    - unfold oneof in *. cbn [existsb] in H1. rewrite orb_false_r in H1.
      rewrite H1, H2. cbn [andb]. rewrite orb_true_r. reflexivity.
    - unfold oneof in *. cbn [existsb] in H2. rewrite orb_false_r in H2.
      rewrite H1, H2. apply orb_true_r. }
  destruct Hd as (a1 & a2 & -> & Hd).
  exists c0, d5, y1, y2, y3, y4, m1, m2, a1, a2, tail.
  repeat split; assumption.
Qed.

Lemma closed_digit (c : N) : is_ascii_digit c = true -> is_digit U c = true.
Proof.
  unfold is_digit. now intros ->.
Qed.

(** On the eight characters the ID pattern lets through, [strptime]
    reads four, two and two characters. *)
Lemma strptime_fixed_split (y1 y2 y3 y4 m1 m2 a1 a2 : N) :
  century_chars y1 y2 = true ->
  is_digit U y3 = true -> is_digit U y4 = true ->
  month_chars m1 m2 = true ->
  day_chars U a1 a2 = true ->
  strptime_Ymd U [y1; y2; y3; y4; m1; m2; a1; a2]
  = make_date (int_of_digits U [y1; y2; y3; y4])
              (int_of_digits U [m1; m2]) (int_of_digits U [a1; a2]).
Proof.
  unfold century_chars, month_chars, day_chars.
  rewrite !orb_true_iff, !andb_true_iff, !orb_true_iff, !N.eqb_eq.
  intros Hc Hy3 Hy4 Hm Hd.
  assert (Hy1 : is_digit U y1 = true)
    by (destruct Hc as [[<- _] | [<- _]]; now apply closed_digit).
  assert (Hy2 : is_digit U y2 = true)
    by (destruct Hc as [[_ <-] | [_ <-]]; now apply closed_digit).
  clear Hc.
  unfold strptime_Ymd, re_Y, re_m, re_d, lit, range, digit.
  cbn [run rep alt cat fold_right].
  rewrite Hy1, Hy2, Hy3, Hy4.
  destruct Hm as [[<- Hm] | [<- Hm]];
    destruct Hd as [[[<- Hd] | [[-> | ->] Hd]] | [<- [-> | ->]]];
    repeat decide_condition; reflexivity.
Qed.

Lemma make_date_calendar (y m d : Z) :
  make_date y m d <> None <-> calendar_date y m d.
Proof.
  unfold make_date, calendar_date.
  destruct (_ && _) eqn:E.
  - rewrite !andb_true_iff, !Z.leb_le in E. split; [lia | discriminate].
  - split; [congruence | ]. intros H.
    assert (E' : ((1 <=? y) && (y <=? 9999) && (1 <=? m) && (m <=? 12)
                  && (1 <=? d) && (d <=? days_in_month y m))%Z = true)
      by (rewrite !andb_true_iff, !Z.leb_le; lia).
    congruence.
Qed.

Lemma make_date_fields (y m d : Z) (b : date) :
  make_date y m d = Some b -> year b = y /\ month b = m /\ day b = d.
Proof.
  unfold make_date. destruct (_ && _); [ | discriminate ].
  intros [= <-]. now repeat split.
Qed.

(** [strptime] on the birth characters of a word of the ID pattern. *)
Lemma strptime_of_id (w : pystr) :
  matches (id_re U) w ->
  strptime_Ymd U (slice 6 14 w)
  = make_date (birth_year U w) (birth_month U w) (birth_day U w).
Proof.
  intros M. apply id_shape in M.
  destruct M as (c0 & d5 & y1 & y2 & y3 & y4 & m1 & m2 & a1 & a2 & tail
                 & -> & Hd5 & Hc & Hy3 & Hy4 & Hm & Hd).
  destruct d5 as [ | ? [ | ? [ | ? [ | ? [ | ? [ | ] ] ] ] ] ]; try discriminate.
  unfold birth_year, birth_month, birth_day, slice.
  cbn [app skipn firstn Nat.sub].
  now apply strptime_fixed_split.
Qed.

(** What [clean_id] returns: nothing, or a word of the ID pattern. *)
Lemma clean_id_word (raw : pystr) :
  clean_id U raw = [] \/ matches (id_re U) (clean_id U raw).
Proof.
  unfold clean_id. destruct (negb (truthy raw)); [now left | ].
  destruct (re_search (id_re U) _) as [m | ] eqn:E; [ | now left ].
  right. apply re_search_some in E. now destruct E as (pre & post & _ & M & _).
Qed.

Lemma id_word_nonempty (w : pystr) : matches (id_re U) w -> truthy w = true.
Proof.
  intros M. apply id_shape in M. now destruct M as (c0 & d5 & ? & ? & ? & ? & ? & ? & ? & ? & ? & -> & _).
Qed.

End IdFacts.

(* ================================================================== *)
(** * Age and age band *)

Section AgeFacts.
Variable U : unicode_db.
Variable today : date.

Lemma pair_ltb_lex (m1 d1 m2 d2 : Z) :
  pair_ltb (m1, d1) (m2, d2) = true <-> lex_lt m1 d1 m2 d2.
Proof.
  unfold pair_ltb, lex_lt. simpl.
  rewrite orb_true_iff, andb_true_iff, !Z.ltb_lt, Z.eqb_eq. tauto.
Qed.

(** The age of a word of the ID pattern, from the birth date it embeds. *)
Lemma calculate_age_of_id (id_card : pystr) :
  matches (id_re U) id_card ->
  calculate_age U today id_card =
  match make_date (birth_year U id_card) (birth_month U id_card) (birth_day U id_card) with
  | Some _ =>
      Some (year today - birth_year U id_card
            - (if pair_ltb (month today, day today)
                           (birth_month U id_card, birth_day U id_card)
               then 1 else 0))%Z
  | None => None
  end.
Proof.
  intros M. unfold calculate_age.
  rewrite (id_word_nonempty U id_card M). cbn [negb].
  rewrite (strptime_of_id U id_card M).
  destruct (make_date _ _ _) as [b | ] eqn:E; [ | reflexivity ].
  apply make_date_fields in E. destruct E as (-> & -> & ->). reflexivity.
Qed.

(** C5, as the code has it: for a word of the ID pattern whose birth
    characters are a calendar date, and any current date, the age is the
    difference of the years, less one exactly when (current month, current
    day) is before (birth month, birth day); so it is within one of the
    difference of the years. It is non-negative when the birth date is not
    after the current date (nothing in the code keeps a later birth date
    out). *)
Theorem age_from_birth_date (id_card : pystr) :
  matches (id_re U) id_card ->
  birth_is_calendar_date U id_card ->
  exists age,
    calculate_age U today id_card = Some age
    /\ (lex_lt (month today) (day today) (birth_month U id_card) (birth_day U id_card)
        -> age = year today - birth_year U id_card - 1)%Z
    /\ (~ lex_lt (month today) (day today) (birth_month U id_card) (birth_day U id_card)
        -> age = year today - birth_year U id_card)%Z
    /\ (year today - birth_year U id_card - 1 <= age <= year today - birth_year U id_card)%Z
    /\ (not_after (birth_year U id_card) (birth_month U id_card) (birth_day U id_card)
                  (year today) (month today) (day today)
        -> 0 <= age)%Z.
Proof.
  intros M Hcal. rewrite (calculate_age_of_id id_card M).
  apply make_date_calendar in Hcal.
  destruct (make_date _ _ _) as [b | ]; [clear Hcal | congruence].
  eexists. split; [reflexivity | ].
  destruct (pair_ltb _ _) eqn:E.
  - apply pair_ltb_lex in E. repeat split; try lia.
    + intros H. now elim H.
    + intros [H | [_ H]]; [lia | now elim H].
  - assert (E' : ~ lex_lt (month today) (day today)
                    (birth_month U id_card) (birth_day U id_card))
      by (rewrite <- pair_ltb_lex; congruence).
    repeat split; try lia.
    + intros H. now elim E'.
    + intros [H | [H _]]; lia.
Qed.

Lemma age_category_bands (a : Z) :
  (age_category (Some a) = Child <-> a < 7)%Z
  /\ (age_category (Some a) = Youth <-> 7 <= a < 23)%Z
  /\ (age_category (Some a) = Adult <-> 23 <= a < 60)%Z
  /\ (age_category (Some a) = Senior <-> 60 <= a)%Z
  /\ age_category (Some a) <> Unknown.
Proof.
  unfold age_category.
  destruct (Z.ltb_spec a 7); [ | destruct (Z.ltb_spec a 23); [ | destruct (Z.ltb_spec a 60) ] ];
    repeat split; intros; try discriminate; try lia; reflexivity.
Qed.

(** C6: the band of a record follows from its age by the four bounds,
    with [Unknown] for no age; and a record has no age exactly when the ID
    number extracted for it is empty or its birth characters are not a
    calendar date. A record has one band, the value of [r_cat]. *)
Theorem record_age_and_band (name_cell phone_cell id_cell : cell) :
  let r := make_record U today name_cell phone_cell id_cell in
  (r_age r = None <-> r_id r = [] \/ ~ birth_is_calendar_date U (r_id r))
  /\ (r_cat r = Unknown <-> r_age r = None)
  /\ (forall a, r_age r = Some a ->
        (r_cat r = Child <-> a < 7)%Z
        /\ (r_cat r = Youth <-> 7 <= a < 23)%Z
        /\ (r_cat r = Adult <-> 23 <= a < 60)%Z
        /\ (r_cat r = Senior <-> 60 <= a)%Z).
Proof.
  cbv zeta. unfold make_record. cbn [r_age r_id r_cat].
  set (id_card := clean_id U (nan_to_empty id_cell)).
  split; [ | split ].
  - pose proof (clean_id_word U (nan_to_empty id_cell)) as W. fold id_card in W.
    destruct W as [E | M].
    + rewrite E. split; [now left | reflexivity].
    + rewrite (calculate_age_of_id id_card M). unfold birth_is_calendar_date.
      rewrite <- make_date_calendar.
      assert (Hne : id_card <> [])
        by (intros E; apply id_word_nonempty in M; rewrite E in M; discriminate).
      destruct (make_date _ _ _); split.
      * discriminate.
      * intros [H | H]; [contradiction | exfalso; apply H; discriminate].
      * intros _. right. intros H. now apply H.
      * reflexivity.
  - destruct (calculate_age U today id_card) as [a | ];
      [ | split; intros _; reflexivity ].
    split; [ | discriminate ]. intros H.
    destruct (age_category_bands a) as (_ & _ & _ & _ & Hn). now elim Hn.
  - intros a ->. destruct (age_category_bands a) as (H1 & H2 & H3 & H4 & _).
    exact (conj H1 (conj H2 (conj H3 H4))).
Qed.

End AgeFacts.

(** An instance of [age_from_birth_date]: the ID number
    110101199001011234 on 2026-11-03. *)
Lemma age_from_birth_date_example :
  matches (id_re sample_db) (py "110101199001011234")
  /\ birth_is_calendar_date sample_db (py "110101199001011234")
  /\ exists age,
      calculate_age sample_db {| year := 2026; month := 11; day := 3 |}
                    (py "110101199001011234") = Some age
      /\ (0 <= age)%Z.
Proof.
  assert (M : matches (id_re sample_db) (py "110101199001011234"))
    by (apply re_fullmatch_iff; vm_compute; reflexivity).
  assert (C : birth_is_calendar_date sample_db (py "110101199001011234"))
    by (vm_compute; repeat split; discriminate).
  split; [exact M | split; [exact C | ] ].
  destruct (age_from_birth_date sample_db {| year := 2026; month := 11; day := 3 |}
              (py "110101199001011234") M C) as (age & E & _ & _ & _ & Hpos).
  exists age. split; [exact E | ]. apply Hpos. left. vm_compute. reflexivity.
Defined.

(** C5, as the specification words it, fails for a birth date after the
    current date: 110101209901011234 is a word of the ID pattern, its birth
    characters are the calendar date 2099-01-01, and on 2026-11-03 its age
    is -73. *)
Lemma age_negative_for_later_birth :
  re_fullmatch (id_re sample_db) (py "110101209901011234") = true
  /\ make_date (birth_year sample_db (py "110101209901011234"))
               (birth_month sample_db (py "110101209901011234"))
               (birth_day sample_db (py "110101209901011234"))
     = Some {| year := 2099; month := 1; day := 1 |}
  /\ calculate_age sample_db {| year := 2026; month := 11; day := 3 |}
                   (py "110101209901011234") = Some (-73)%Z.
Proof.
  repeat split; vm_compute; reflexivity.
Qed.

(* ================================================================== *)
(** * Report assembly *)

Section AssembleFacts.

Lemma band_eqb_eq (a b : band) : band_eqb a b = true <-> a = b.
Proof.
  destruct a, b; simpl; split; intros H; try reflexivity; discriminate.
Qed.

Lemma band_eqb_refl (b : band) : band_eqb b b = true.
Proof.
  now apply band_eqb_eq.
Qed.

Lemma in_band_cat (b : band) (base : list record) (r : record) :
  In r (in_band b base) <-> In r base /\ r_cat r = b.
Proof.
  unfold in_band. now rewrite filter_In, band_eqb_eq.
Qed.

(** One iteration appends the rows of its band. *)
Lemma assemble_step_concat (base : list record) (parts : list (list out_row))
    (i : nat) (b : band) :
  concat (assemble_step base parts i b) =
  concat parts ++
  match in_band b base with
  | [] => []
  | _ :: _ =>
      map DataRow (band_main b base) ++ map DataRow (band_sub b base)
      ++ [CountRow b (length (in_band b base))]
      ++ (if (i <? length category_order - 1)%nat then [BlankRow] else [])
  end.
Proof.
  unfold assemble_step, band_main, band_sub. fold (in_band b base).
  destruct (in_band b base) as [ | r rs ] eqn:E; cbn [is_empty].
  - now rewrite app_nil_r.
  - set (main_data := filter (fun r0 => negb (sub_condition b r0)) (r :: rs)).
    set (sub_data := filter (sub_condition b) (r :: rs)).
    destruct main_data as [ | m ms ], sub_data as [ | u us ]; cbn [is_empty negb];
      destruct (_ <? _)%nat;
      rewrite ?concat_app; cbn [concat map app]; rewrite ?app_nil_r, <- ?app_assoc;
      reflexivity.
Qed.

(** The rows of the report are the sections of the five bands, in the
    order of [category_order]. *)
Lemma assemble_parts_sections (base : list record) :
  concat (assemble_parts base) = flat_map (band_section base) category_order.
Proof.
  unfold assemble_parts, enumerate, category_order.
  cbn [enumerate_from fold_left flat_map].
  rewrite !assemble_step_concat. unfold band_section.
  cbn [concat app length Nat.sub Nat.ltb Nat.leb band_eqb].
  now rewrite app_nil_r, <- !app_assoc.
Qed.

Lemma band_section_nonempty (base : list record) (b : band) :
  in_band b base <> [] -> band_section base b <> [].
Proof.
  unfold band_section. destruct (in_band b base); [congruence | ].
  intros _ H. apply app_eq_nil in H. destruct H as [_ H].
  apply app_eq_nil in H. destruct H as [_ H]. discriminate.
Qed.

Lemma in_order (b : band) : In b category_order.
Proof.
  destruct b; simpl; tauto.
Qed.

Lemma assemble_rows (base : list record) :
  assemble base =
  match base with
  | [] => None
  | _ :: _ => Some (flat_map (band_section base) category_order)
  end.
Proof.
  destruct base as [ | r rs ]; [reflexivity | ].
  unfold assemble. rewrite <- assemble_parts_sections.
  destruct (assemble_parts (r :: rs)) eqn:E; [ | reflexivity ].
  exfalso.
  assert (H : concat (assemble_parts (r :: rs)) = []) by now rewrite E.
  rewrite assemble_parts_sections in H.
  assert (Hb : in_band (r_cat r) (r :: rs) <> []).
  { unfold in_band. simpl. now rewrite band_eqb_refl. }
  apply band_section_nonempty in Hb. apply Hb.
  assert (Hall : forall b, In b category_order -> band_section (r :: rs) b = []).
  { clear - H. induction category_order as [ | c cs IH ]; [now intros | ].
    simpl in H. apply app_eq_nil in H. destruct H as [H1 H2].
    intros b [<- | Hin]; [assumption | now apply IH]. }
  apply Hall, in_order.
Qed.

Lemma sub_condition_window (b : band) (r : record) :
  sub_condition b r = true <->
  (b = Adult /\ exists a, r_age r = Some a /\ (23 <= a < 25)%Z)
  \/ (b = Youth /\ exists a, r_age r = Some a /\ (21 <= a < 23)%Z).
Proof.
  unfold sub_condition, age_in. split.
  - destruct b; try discriminate; destruct (r_age r) as [a | ]; try discriminate;
      rewrite andb_true_iff, Z.leb_le, Z.ltb_lt; intros H;
      [right | left]; (split; [reflexivity | now exists a]).
  - intros [[-> (a & -> & H)] | [-> (a & -> & H)]];
      rewrite andb_true_iff, Z.leb_le, Z.ltb_lt; exact H.
Qed.

(** C7: the rows of the report are the sections of the bands in the
    order Adult, Youth, Child, Senior, Unknown; a band without records has
    no section; the section of a band starts with its main group, followed
    by its sub group, each the records of [base] that belong to it, in the
    order of [base]; and the sub group is the Adult records of age 23 or 24
    and the Youth records of age 21 or 22. With no record at all there is
    no report ([pd.concat] raises). *)
Theorem assemble_band_sections (base : list record) :
  assemble base =
    match base with
    | [] => None
    | _ :: _ => Some (flat_map (band_section base) [Adult; Youth; Child; Senior; Unknown])
    end
  /\ (forall b, in_band b base = [] -> band_section base b = [])
  /\ (forall b, in_band b base <> [] ->
        exists tail,
          band_section base b =
            map DataRow (filter (fun r => negb (sub_condition b r)) (in_band b base))
            ++ map DataRow (filter (sub_condition b) (in_band b base))
            ++ tail
          /\ forall r, ~ In (DataRow r) tail)
  /\ (forall b r, sub_condition b r = true <->
        (b = Adult /\ exists a, r_age r = Some a /\ (23 <= a < 25)%Z)
        \/ (b = Youth /\ exists a, r_age r = Some a /\ (21 <= a < 23)%Z)).
Proof.
  split; [apply assemble_rows | ]. split; [ | split ].
  - intros b E. unfold band_section. now rewrite E.
  - intros b Hne. unfold band_section, band_main, band_sub.
    destruct (in_band b base) as [ | r rs ]; [congruence | ].
    eexists. split; [reflexivity | ].
    intros r0 [H | H]; [discriminate | ].
    destruct (band_eqb b Unknown); simpl in H; [contradiction | ].
    destruct H as [H | H]; [discriminate | contradiction].
  - apply sub_condition_window.
Qed.

End AssembleFacts.

Section CountAndBlank.

Lemma count_in_section (base : list record) (b b' : band) (n : nat) :
  In (CountRow b n) (band_section base b') ->
  b' = b /\ n = length (in_band b base).
Proof.
  unfold band_section. destruct (in_band b' base) as [ | r rs ] eqn:E; [contradiction | ].
  rewrite !in_app_iff, !in_map_iff.
  intros [(x & Hx & _) | [(x & Hx & _) | [H | H] ] ]; try discriminate.
  - destruct H as [H | []]. injection H as -> <-. now rewrite E.
  - destruct (band_eqb b' Unknown); [contradiction | ].
    destruct H as [H | []]. discriminate.
Qed.

Lemma count_not_in_sections (base : list record) (b : band) (n : nat) (bs : list band) :
  ~ In b bs -> ~ In (CountRow b n) (flat_map (band_section base) bs).
Proof.
  intros Hb H. apply in_flat_map in H. destruct H as (b' & Hin & H).
  apply count_in_section in H. destruct H as [-> _]. contradiction.
Qed.

(** Around the count row of a band with records. *)
Lemma section_split (base : list record) (b : band) (before after : list band) :
  in_band b base <> [] -> ~ In b before -> ~ In b after ->
  exists pre post,
    flat_map (band_section base) (before ++ b :: after)
    = pre ++ CountRow b (length (in_band b base)) :: post
    /\ (forall n, ~ In (CountRow b n) pre /\ ~ In (CountRow b n) post)
    /\ post = (if band_eqb b Unknown then [] else [BlankRow])
              ++ flat_map (band_section base) after.
Proof.
  intros Hne Hb Ha.
  exists (flat_map (band_section base) before
          ++ map DataRow (band_main b base) ++ map DataRow (band_sub b base)),
         ((if band_eqb b Unknown then [] else [BlankRow])
          ++ flat_map (band_section base) after).
  split; [ | split; [ | reflexivity ] ].
  - rewrite flat_map_app. cbn [flat_map]. unfold band_section at 2.
    destruct (in_band b base) as [ | r rs ]; [congruence | ].
    rewrite <- !app_assoc. reflexivity.
  - intros n. split.
    + rewrite !in_app_iff, !in_map_iff.
      intros [H | [(x & Hx & _) | (x & Hx & _)] ]; try discriminate.
      now apply count_not_in_sections in H.
    + rewrite in_app_iff. intros [H | H].
      * destruct (band_eqb b Unknown); [contradiction | ].
        destruct H as [H | []]. discriminate.
      * now apply count_not_in_sections in H.
Qed.

Lemma in_band_nonempty_base (b : band) (base : list record) :
  in_band b base <> [] -> exists r rs, base = r :: rs.
Proof.
  destruct base as [ | r rs ]; [now intros H | intros _; now exists r, rs].
Qed.

(** C1, as the code has it: a band with records has one count row, and a
    blank row follows it exactly when the band is not [Unknown], the last
    entry of [category_order]; whether the bands after it have records
    plays no part. The count row of [Unknown] ends the report. *)
Theorem blank_row_after_count (base : list record) (b : band) :
  in_band b base <> [] ->
  exists rows pre post,
    assemble base = Some rows
    /\ rows = pre ++ CountRow b (length (in_band b base)) :: post
    /\ (forall n, ~ In (CountRow b n) pre /\ ~ In (CountRow b n) post)
    /\ (b <> Unknown -> exists post', post = BlankRow :: post')
    /\ (b = Unknown -> post = []).
Proof.
  intros Hne. destruct (in_band_nonempty_base b base Hne) as (r & rs & Hbase).
  assert (Hrows : assemble base = Some (flat_map (band_section base) category_order))
    by (rewrite assemble_rows, Hbase; reflexivity).
  assert (Hsplit : exists before after,
             category_order = before ++ b :: after /\ ~ In b before /\ ~ In b after
             /\ (b = Unknown -> after = [])).
  { destruct b;
      [ exists [Adult; Youth], [Senior; Unknown]
      | exists [Adult], [Child; Senior; Unknown]
      | exists [], [Youth; Child; Senior; Unknown]
      | exists [Adult; Youth; Child], [Unknown]
      | exists [Adult; Youth; Child; Senior], [] ];
      (split; [ reflexivity | ]);
      (split; [ simpl; intuition discriminate | ]);
      (split; [ simpl; intuition discriminate | ]);
      intros H; try discriminate H; reflexivity. }
  destruct Hsplit as (before & after & Ho & Hb & Ha & Hlast).
  destruct (section_split base b before after Hne Hb Ha) as (pre & post & E & Huniq & Hpost).
  exists (flat_map (band_section base) category_order), pre, post.
  split; [exact Hrows | ]. split; [now rewrite Ho | ]. split; [exact Huniq | ]. split.
  - intros Hb'. rewrite Hpost. destruct b; [ | | | | now elim Hb' ]; now eexists.
  - intros ->. rewrite Hpost, (Hlast eq_refl). reflexivity.
Qed.

Lemma filter_partition {X : Type} (p : X -> bool) (l : list X) :
  Permutation (filter (fun x => negb (p x)) l ++ filter p l) l.
Proof.
  induction l as [ | x l IH ]; simpl; [constructor | ].
  destruct (p x); simpl.
  - apply Permutation_sym, Permutation_cons_app, Permutation_sym, IH.
  - now constructor.
Qed.

Lemma filter_data_map (b b' : band) (l : list record) :
  (forall r, In r l -> r_cat r = b') ->
  filter (is_data_of b) (map DataRow l) = if band_eqb b' b then map DataRow l else [].
Proof.
  induction l as [ | r l IH ]; intros H.
  - now destruct (band_eqb b' b).
  - simpl. rewrite (H r (or_introl eq_refl)), IH by (intros; apply H; now right).
    now destruct (band_eqb b' b).
Qed.

Lemma data_of_section (base : list record) (b b' : band) :
  filter (is_data_of b) (band_section base b')
  = if band_eqb b' b then map DataRow (band_main b' base ++ band_sub b' base) else [].
Proof.
  unfold band_section, band_main, band_sub.
  destruct (in_band b' base) as [ | r rs ] eqn:E.
  - now destruct (band_eqb b' b).
  - rewrite <- E, !filter_app.
    rewrite !(filter_data_map b b')
      by (intros x Hx; apply filter_In in Hx; destruct Hx as [Hx _];
          now apply in_band_cat in Hx).
    destruct (band_eqb b' Unknown), (band_eqb b' b); simpl;
      rewrite ?app_nil_r, ?map_app; reflexivity.
Qed.

(** C8: the count row of a band with records carries the number of data
    rows the report has for that band, which is the size of the main group
    plus the size of the sub group; the two groups have no record in common
    and together are the records of the band, each once. *)
Theorem count_row_counts_data_rows (base : list record) (b : band) :
  in_band b base <> [] ->
  exists rows,
    assemble base = Some rows
    /\ In (CountRow b (length (band_main b base) + length (band_sub b base))) rows
    /\ (forall n, In (CountRow b n) rows -> n = length (filter (is_data_of b) rows))
    /\ filter (is_data_of b) rows = map DataRow (band_main b base ++ band_sub b base)
    /\ Permutation (band_main b base ++ band_sub b base) (in_band b base)
    /\ (forall r, In r (band_main b base) -> ~ In r (band_sub b base)).
Proof.
  intros Hne. destruct (in_band_nonempty_base b base Hne) as (r0 & rs & Hbase).
  exists (flat_map (band_section base) category_order).
  assert (Hperm : Permutation (band_main b base ++ band_sub b base) (in_band b base))
    by apply filter_partition.
  assert (Hlen : length (in_band b base)
                 = length (band_main b base) + length (band_sub b base))
    by (rewrite <- (Permutation_length Hperm); apply length_app).
  assert (Hdata : filter (is_data_of b) (flat_map (band_section base) category_order)
                  = map DataRow (band_main b base ++ band_sub b base)).
  { unfold category_order. cbn [flat_map]. rewrite !filter_app, !data_of_section.
    destruct b; cbn [band_eqb app]; rewrite ?app_nil_r; reflexivity. }
  split; [rewrite assemble_rows, Hbase; reflexivity | ].
  split; [ | split; [ | split; [exact Hdata | split; [exact Hperm | ] ] ] ].
  - apply in_flat_map. exists b. split; [apply in_order | ].
    unfold band_section. rewrite <- Hlen.
    destruct (in_band b base); [congruence | ].
    rewrite !in_app_iff. right. right. left. now left.
  - intros n H. apply in_flat_map in H. destruct H as (b' & _ & H).
    apply count_in_section in H. destruct H as [_ ->].
    now rewrite Hdata, length_map, length_app.
  - intros r Hm Hs. unfold band_main, band_sub in Hm, Hs.
    apply filter_In in Hm, Hs. destruct Hm as [_ Hm], Hs as [_ Hs].
    rewrite Hs in Hm. discriminate.
Qed.

End CountAndBlank.

(** An instance of [blank_row_after_count]: the band Child of the
    scenario records. *)
Lemma blank_row_after_count_example :
  in_band Child scenario_records <> []
  /\ exists rows pre post,
      assemble scenario_records = Some rows
      /\ rows = pre ++ CountRow Child (length (in_band Child scenario_records)) :: post
      /\ (forall n, ~ In (CountRow Child n) pre /\ ~ In (CountRow Child n) post)
      /\ (Child <> Unknown -> exists post', post = BlankRow :: post')
      /\ (Child = Unknown -> post = []).
Proof.
  assert (H : in_band Child scenario_records <> []) by (vm_compute; discriminate).
  split; [exact H | exact (blank_row_after_count scenario_records Child H)].
Defined.

(** C1, as the specification words it, fails on its own scenario: Child
    is the last band with records, and a blank row follows its count row,
    so the report ends with a blank row. *)
Lemma blank_row_ends_scenario_report :
  assemble scenario_records
  = Some [ DataRow (person li_si 40); DataRow (person zhang_san 24);
           CountRow Adult 2; BlankRow;
           DataRow (person wang_wu 3); CountRow Child 1; BlankRow ].
Proof.
  vm_compute. reflexivity.
Qed.

(** An instance of [count_row_counts_data_rows]: the band Adult of the
    scenario records. *)
Lemma count_row_counts_data_rows_example :
  in_band Adult scenario_records <> []
  /\ exists rows,
      assemble scenario_records = Some rows
      /\ In (CountRow Adult (length (band_main Adult scenario_records)
                             + length (band_sub Adult scenario_records))) rows
      /\ (forall n, In (CountRow Adult n) rows ->
                    n = length (filter (is_data_of Adult) rows))
      /\ filter (is_data_of Adult) rows
         = map DataRow (band_main Adult scenario_records ++ band_sub Adult scenario_records)
      /\ Permutation (band_main Adult scenario_records ++ band_sub Adult scenario_records)
                     (in_band Adult scenario_records)
      /\ (forall r, In r (band_main Adult scenario_records) ->
                    ~ In r (band_sub Adult scenario_records)).
Proof.
  assert (H : in_band Adult scenario_records <> []) by (vm_compute; discriminate).
  split; [exact H | exact (count_row_counts_data_rows scenario_records Adult H)].
Defined.

(* ================================================================== *)
(** * Fills *)

Section FillFacts.

(** The labels of the bands are distinct texts: comparing the column
    年龄段 with a label is comparing bands. *)
Lemma category_label_eqb (a b : band) :
  PyStr.eqb (category_label a) (category_label b) = band_eqb a b.
Proof.
  destruct a, b; reflexivity.
Qed.

Lemma truthy_strip (s : pystr) : truthy (strip s) = true -> truthy s = true.
Proof.
  now destruct s.
Qed.

Lemma data_row_fill (r : record) :
  row_fill (render (DataRow r))
  = if truthy (strip (r_name r)) then fill_of (highlight (r_cat r) (r_age r)) else None.
Proof.
  unfold row_fill, render. cbn [c_name c_age c_cat].
  destruct (truthy (strip (r_name r))) eqn:E.
  - rewrite (truthy_strip _ E).
    destruct (r_cat r), (r_age r) as [a | ]; try reflexivity;
      cbn; now destruct (_ && _)%bool.
  - now rewrite andb_false_r.
Qed.

(** C10: the fill of a data row with a name is the rendering of the
    policy of the specification: yellow (CareFlag) for Child and Senior,
    green (TransitionA) exactly for Adult with 23 <= age < 25, blue
    (TransitionB) exactly for Youth with 21 <= age < 23, none otherwise; a
    data row without a name, a count row and a blank row get no fill; and
    TransitionA and TransitionB are the sub-split condition of the
    assembly on the bands Adult and Youth. *)
Theorem row_fill_highlight :
  (forall r, row_fill (render (DataRow r))
             = if truthy (strip (r_name r))
               then fill_of (highlight (r_cat r) (r_age r)) else None)
  /\ (forall U today name_cell phone_cell id_cell,
        let r := make_record U today name_cell phone_cell id_cell in
        row_fill (render (DataRow r))
        = if truthy (r_name r) then fill_of (highlight (r_cat r) (r_age r)) else None)
  /\ (forall b n, row_fill (render (CountRow b n)) = None)
  /\ row_fill (render BlankRow) = None
  /\ (forall r,
        (highlight (r_cat r) (r_age r) = CareFlag
         <-> r_cat r = Child \/ r_cat r = Senior)
        /\ (highlight (r_cat r) (r_age r) = TransitionA
            <-> r_cat r = Adult /\ sub_condition (r_cat r) r = true)
        /\ (highlight (r_cat r) (r_age r) = TransitionB
            <-> r_cat r = Youth /\ sub_condition (r_cat r) r = true)).
Proof.
  split; [exact data_row_fill | ]. split; [ | split; [ | split ] ].
  - intros U today n p i. cbv zeta. rewrite data_row_fill.
    unfold make_record. cbn [r_name]. now rewrite strip_idem.
  - intros b n. unfold row_fill, render. cbn [c_name c_age c_cat truthy].
    now rewrite andb_false_r.
  - reflexivity.
  - intros r. unfold highlight, sub_condition, age_in.
    destruct (r_cat r), (r_age r) as [a | ];
      try destruct (_ && _)%bool;
      repeat split; intros; try discriminate; try reflexivity;
      try tauto; intuition discriminate.
Qed.

End FillFacts.

(* ================================================================== *)
(** * Column detection on two tables *)

(** C2 on [id_and_mixed_table]: column A scores 1 for ID and for phone
    (a 19xx ID number holds a phone text), column B scores 1/2 for name and
    for phone. A goes to ID; the phone column is chosen again outside A and
    is B, which is not added to [used]; the name column B is then accepted.
    Name and phone are both B. *)
Theorem detect_gives_one_column_twice :
  score_table sample_db id_and_mixed_table
  = [ (py "A", {| s_name := 0 # 2; s_phone := 2 # 2; s_id := 2 # 2 |});
      (py "B", {| s_name := 1 # 2; s_phone := 1 # 2; s_id := 0 # 2 |}) ]
  /\ detect_columns sample_db id_and_mixed_table = inr (py "B", py "B", py "A").
Proof.
  split; vm_compute; reflexivity.
Qed.

(** C9 on [one_column_table]: the only column scores 1/2 for each field
    and goes to ID. No column is left for phone and name, the candidates are
    empty, both variables keep the column A, and the detection succeeds. *)
Theorem detect_succeeds_without_free_column :
  score_table sample_db one_column_table
  = [ (py "A", {| s_name := 1 # 2; s_phone := 1 # 2; s_id := 1 # 2 |}) ]
  /\ detect_columns sample_db one_column_table = inr (py "A", py "A", py "A").
Proof.
  split; vm_compute; reflexivity.
Qed.

(* ================================================================== *)
(** * Failed detection of the ID column *)

Section DetectFacts.
Variable U : unicode_db.

Lemma max_from_in {X : Type} (f : X -> Q) (xs : list X) :
  forall best, In (max_from f best xs) (best :: xs).
Proof.
  induction xs as [ | x xs IH ]; intros best; simpl.
  - now left.
  - destruct (Qltb (f best) (f x)).
    + right. apply IH.
    + destruct (IH best) as [H | H]; [now left | now right; right].
Qed.

Lemma first_pick_total (key : score -> Q) (scores : list (label * score)) :
  scores <> [] -> exists col, first_pick key scores = inr col.
Proof.
  destruct scores as [ | e es ]; [congruence | intros _ ].
  unfold first_pick. cbn [map py_max]. destruct (Qltb _ _); now eexists.
Qed.

Lemma first_pick_below_threshold (key : score -> Q) (scores : list (label * score)) :
  scores <> [] ->
  (forall e, In e scores -> Qle_bool (key (snd e)) threshold = true) ->
  first_pick key scores = inr None.
Proof.
  destruct scores as [ | e es ]; [congruence | intros _ Hall ].
  unfold first_pick. cbn [map py_max].
  assert (Hin := max_from_in (fun v => v) (map (fun e0 => key (snd e0)) es) (key (snd e))).
  change (key (snd e) :: map (fun e0 => key (snd e0)) es)
    with (map (fun e0 => key (snd e0)) (e :: es)) in Hin.
  apply in_map_iff in Hin. destruct Hin as (e' & <- & Hin').
  unfold Qltb. now rewrite (Hall e' Hin').
Qed.

Lemma resolve_keeps_id (columns : list label) (scores : list (label * score))
    (name_col phone_col id_col : option label) :
  snd (resolve columns scores name_col phone_col id_col) = id_col.
Proof.
  unfold resolve.
  destruct (claim id_col []); destruct (claim phone_col _); destruct (claim name_col _);
    reflexivity.
Qed.

(** X1, the last part of C9 on tables with a column: when no column has
    an ID score above 0.3, the detection fails with the script's own error,
    and the list of missing fields it carries holds the ID field. *)
Theorem detect_lists_id_field (df : table) :
  df <> [] ->
  (forall c, In c df -> Qle_bool (s_id (score_column U c)) threshold = true) ->
  exists missing,
    detect_columns U df = inl (DetectFailed missing) /\ In FId missing.
Proof.
  intros Hne Hall.
  assert (Hs : score_table U df <> [])
    by (destruct df; [congruence | discriminate]).
  unfold detect_columns.
  destruct (first_pick_total s_name _ Hs) as (name_col & ->).
  destruct (first_pick_total s_phone _ Hs) as (phone_col & ->).
  rewrite (first_pick_below_threshold s_id (score_table U df) Hs).
  - pose proof (resolve_keeps_id (map col_label df) (score_table U df)
                  name_col phone_col None) as Hid.
    destruct (resolve _ _ _ _ _) as [[n p] i]. simpl in Hid. subst i.
    exists (missing_fields n p None). split.
    + unfold missing_fields. cbn [col_truthy].
      destruct (col_truthy n), (col_truthy p); cbn [app]; now destruct n, p.
    + unfold missing_fields. rewrite !in_app_iff. right. right. now left.
  - intros e He. unfold score_table in He. apply in_map_iff in He.
    destruct He as (c & <- & Hc). now apply Hall.
Qed.

End DetectFacts.

(** An instance of [detect_lists_id_field]: a table of one column of
    names. *)
Lemma detect_lists_id_field_example :
  exists missing,
    detect_columns sample_db
      [ {| col_label := py "X"; col_cells := [Some zhang_san; Some li_si] |} ]
    = inl (DetectFailed missing)
    /\ In FId missing.
Proof.
  apply (detect_lists_id_field sample_db
           [ {| col_label := py "X"; col_cells := [Some zhang_san; Some li_si] |} ]).
  - discriminate.
  - intros c [<- | []]. vm_compute. reflexivity.
Defined.

(* ================================================================== *)
(** * A detected table has rows *)

Section PipelineFacts.
Variable U : unicode_db.

Lemma pystr_eqb_refl (l : pystr) : PyStr.eqb l l = true.
Proof.
  induction l as [ | c l IH ]; simpl; [reflexivity | ].
  now rewrite N.eqb_refl.
Qed.

Lemma first_pick_in (key : score -> Q) (scores : list (label * score)) (l : label) :
  first_pick key scores = inr (Some l) -> In l (map fst scores).
Proof.
  destruct scores as [ | e es ]; [discriminate | ].
  unfold first_pick. cbn [map py_max]. destruct (Qltb _ _); [ | discriminate ].
  intros [= <-]. apply (in_map fst (e :: es)), max_from_in.
Qed.

Lemma first_pick_above (key : score -> Q) (scores : list (label * score)) (l : label) :
  first_pick key scores = inr (Some l) ->
  exists e, In e scores /\ Qltb threshold (key (snd e)) = true.
Proof.
  destruct scores as [ | e es ]; [discriminate | ].
  unfold first_pick. cbn [map py_max].
  assert (Hin := max_from_in (fun v => v) (map (fun e0 => key (snd e0)) es) (key (snd e))).
  change (key (snd e) :: map (fun e0 => key (snd e0)) es)
    with (map (fun e0 => key (snd e0)) (e :: es)) in Hin.
  apply in_map_iff in Hin. destruct Hin as (e' & <- & Hin').
  destruct (Qltb threshold (key (snd e'))) eqn:E; [ | discriminate ].
  intros _. now exists e'.
Qed.

Lemma reselect_in (key : score -> Q) (columns : list label)
    (scores : list (label * score)) (used : list label) (current : option label) :
  (forall l, current = Some l -> In l columns) ->
  forall l, reselect key columns scores used current = Some l -> In l columns.
Proof.
  intros Hcur l. unfold reselect.
  destruct (map _ (filter _ columns)) as [ | x xs ] eqn:E; cbn [py_max].
  - apply Hcur.
  - destruct (Qle_bool _ _); [discriminate | ]. intros [= <-].
    assert (Hin := max_from_in snd xs x). rewrite <- E in Hin.
    apply in_map_iff in Hin. destruct Hin as (c & Hc & Hin). rewrite <- Hc.
    apply filter_In in Hin. now destruct Hin.
Qed.

Lemma resolve_in (columns : list label) (scores : list (label * score))
    (name_col phone_col id_col : option label) :
  (forall l, name_col = Some l -> In l columns) ->
  (forall l, phone_col = Some l -> In l columns) ->
  forall n p i,
    resolve columns scores name_col phone_col id_col = (Some n, Some p, i) ->
    In n columns /\ In p columns.
Proof.
  intros Hn Hp n p i. unfold resolve.
  destruct (claim id_col []) as [u1 | ];
    (destruct (claim phone_col _) as [u2 | ];
     [ destruct (claim name_col u2) | destruct (claim name_col _) ]);
    intros [= En Ep _]; split;
    first [ now apply Hn | now apply Hp
          | now apply (reselect_in _ _ _ _ _ Hn _ En)
          | now apply (reselect_in _ _ _ _ _ Hp _ Ep) ].
Qed.

Lemma above_threshold_sampled (raw total : nat) :
  Qltb threshold (normalize raw total) = true -> total <> 0.
Proof.
  unfold normalize. destruct total; [discriminate | intros _; discriminate].
Qed.

(** A successful detection returns labels of the table, and the table
    has a column with a sampled value. *)
Lemma detect_columns_labels (df : table) (n p i : label) :
  detect_columns U df = inr (n, p, i) ->
  In n (map col_label df) /\ In p (map col_label df) /\ In i (map col_label df)
  /\ exists c, In c df /\ col_cells c <> [].
Proof.
  unfold detect_columns.
  destruct (first_pick s_name _) as [e1 | name_col] eqn:E1; [discriminate | ].
  destruct (first_pick s_phone _) as [e2 | phone_col] eqn:E2; [discriminate | ].
  destruct (first_pick s_id _) as [e3 | id_col] eqn:E3; [discriminate | ].
  assert (Hlabels : map fst (score_table U df) = map col_label df)
    by (unfold score_table; rewrite map_map; reflexivity).
  pose proof (resolve_keeps_id (map col_label df) (score_table U df)
                name_col phone_col id_col) as Hid.
  destruct (resolve _ _ _ _ _) as [[n' p'] i'] eqn:R. simpl in Hid. subst i'.
  destruct (missing_fields n' p' id_col) eqn:M; [ | discriminate ].
  destruct n' as [n' | ]; [ | discriminate ].
  destruct p' as [p' | ]; [ | discriminate ].
  destruct id_col as [i' | ]; [ | discriminate ].
  intros [= <- <- <-].
  assert (Hn : forall l, name_col = Some l -> In l (map col_label df))
    by (intros l ->; rewrite <- Hlabels; now apply (first_pick_in s_name)).
  assert (Hp : forall l, phone_col = Some l -> In l (map col_label df))
    by (intros l ->; rewrite <- Hlabels; now apply (first_pick_in s_phone)).
  destruct (resolve_in _ _ _ _ _ Hn Hp _ _ _ R) as [Hn' Hp'].
  repeat split; try assumption.
  - rewrite <- Hlabels. now apply (first_pick_in s_id).
  - apply first_pick_above in E3. destruct E3 as (e & He & Habove).
    unfold score_table in He. apply in_map_iff in He. destruct He as (c & <- & Hc).
    exists c. split; [assumption | ].
    cbn [snd score_column s_id] in Habove. apply above_threshold_sampled in Habove.
    intros Hnil. apply Habove. unfold sample. now rewrite Hnil.
Qed.

Lemma cells_of_column (df : table) (l : label) :
  In l (map col_label df) -> exists c, In c df /\ cells_of df l = col_cells c.
Proof.
  intros Hin. unfold cells_of.
  destruct (find _ df) as [col | ] eqn:F.
  - apply find_some in F. exists col. now destruct F.
  - apply in_map_iff in Hin. destruct Hin as (c & <- & Hc).
    apply (find_none _ _ F) in Hc. now rewrite pystr_eqb_refl in Hc.
Qed.

Lemma zip3_nil (a b c : list cell) :
  zip3 a b c = [] -> a = [] \/ b = [] \/ c = [].
Proof.
  destruct a, b, c; simpl; intros H; try discriminate; tauto.
Qed.

(** X2: on a rectangular table, [process_excel] never stops at
    [pd.concat]: a table that passes the detection has a row, so the list
    of records is not empty and the report has parts. *)
Theorem process_excel_has_parts (today : date) (df : table) :
  rectangular df ->
  process_excel U today df <> inl NoObjectsToConcatenate.
Proof.
  intros (rows & Hrect). unfold process_excel.
  destruct (detect_columns U df) as [e | [[n p] i]] eqn:D; [discriminate | ].
  destruct (assemble _) eqn:A; [discriminate | ]. exfalso.
  rewrite assemble_rows in A.
  destruct (base_df U today df n p i) eqn:B; [clear A | discriminate].
  apply detect_columns_labels in D. destruct D as (Hn & Hp & Hi & (c & Hc & Hcells)).
  assert (Hrows : rows <> 0).
  { rewrite <- (Hrect c Hc). now destruct (col_cells c). }
  unfold base_df in B. apply map_eq_nil in B. apply zip3_nil in B.
  assert (Hlen : forall l, In l (map col_label df) -> cells_of df l <> []).
  { intros l Hl E. destruct (cells_of_column df l Hl) as (c' & Hc' & Ec').
    apply Hrows. rewrite <- (Hrect c' Hc'), <- Ec', E. reflexivity. }
  destruct B as [B | [B | B]]; [now apply (Hlen n) | now apply (Hlen p) | now apply (Hlen i)].
Qed.

End PipelineFacts.

(** An instance of [process_excel_has_parts]: the scenario table. *)
Lemma process_excel_has_parts_example :
  rectangular scenario_table
  /\ process_excel sample_db {| year := 2026; month := 11; day := 3 |} scenario_table
     <> inl NoObjectsToConcatenate.
Proof.
  assert (H : rectangular scenario_table).
  { exists 2. intros c [<- | [<- | [<- | []]]]; reflexivity. }
  split; [exact H | ].
  exact (process_excel_has_parts sample_db {| year := 2026; month := 11; day := 3 |}
           scenario_table H).
Defined.

(* ================================================================== *)
(** * The scenario of the specification, run through the model *)

Example detect_scenario_table :
  detect_columns sample_db scenario_table = inr (py "X", py "Y", py "Z").
Proof.
  vm_compute. reflexivity.
Qed.

Example records_of_scenario_table :
  base_df sample_db {| year := 2026; month := 11; day := 3 |}
          scenario_table (py "X") (py "Y") (py "Z")
  = [ {| r_name := zhang_san; r_phone := py "13912345678";
         r_id := py "110101199001011234"; r_age := Some 36%Z; r_cat := Adult |};
      {| r_name := li_si; r_phone := []; r_id := [];
         r_age := None; r_cat := Unknown |} ].
Proof.
  vm_compute. reflexivity.
Qed.

Example detect_empty_table :
  detect_columns sample_db [] = inl MaxOfEmpty.
Proof.
  reflexivity.
Qed.

Example exactly_11_digits_alone :
  exactly_11_digits sample_db (py "tel 13912345678, home") = true.
Proof.
  vm_compute. reflexivity.
Qed.

Example fills_of_scenario_report :
  map (fun row => row_fill (render row))
      [ DataRow (person li_si 40); DataRow (person zhang_san 24);
        CountRow Adult 2; BlankRow;
        DataRow (person wang_wu 3); CountRow Child 1; BlankRow ]
  = [ None; Some green_fill; None; None; Some yellow_fill; None; None ].
Proof.
  vm_compute. reflexivity.
Qed.

Example process_scenario_table :
  process_excel sample_db {| year := 2026; month := 11; day := 3 |} scenario_table
  = inr [ ({| c_name := zhang_san; c_age := AgeNumber 36;
              c_cat := category_label Adult |}, None);
          ({| c_name := count_text 1; c_age := AgeEmptyString; c_cat := [] |}, None);
          ({| c_name := []; c_age := AgeEmptyString; c_cat := [] |}, None);
          ({| c_name := li_si; c_age := AgeNone;
              c_cat := category_label Unknown |}, None);
          ({| c_name := count_text 1; c_age := AgeEmptyString; c_cat := [] |}, None) ].
Proof.
  vm_compute. reflexivity.
Qed.

(* ================================================================== *)
(** * Canonical phone and ID texts *)

Section CanonicalFields.
Variable U : unicode_db.

Lemma occurs_phone_dec (v : pystr) :
  occurs (phone_window U) v \/ ~ occurs (phone_window U) v.
Proof.
  destruct (re_search (phone_re U) v) as [m | ] eqn:E.
  - left. apply phone_search_window in E. destruct E as (p & Hp & _). now exists p, m.
  - right. intros (pre & w & post & Ev & W).
    apply (re_search_none _ _ E pre w post Ev). now apply matches_phone.
Qed.

Lemma phone_window_length (w : pystr) : phone_window U w = true -> length w = 11.
Proof.
  destruct w as [ | a [ | b rest ] ]; try discriminate. unfold phone_window.
  rewrite !andb_true_iff, Nat.eqb_eq. intros [[_ Hl] _]. simpl. now rewrite Hl.
Qed.

Lemma clean_phone_cases (v : pystr) :
  clean_phone U v = [] \/ phone_window U (clean_phone U v) = true.
Proof.
  destruct (occurs_phone_dec v) as [H | H].
  - right. apply clean_phone_found in H. now destruct H as (pre & (post & _ & W) & _).
  - left. now apply clean_phone_empty.
Qed.

(** X3: what [clean_phone] returns is the empty string or an
    11-character phone text, and cleaning it again changes nothing. *)
Theorem clean_phone_canonical (v : pystr) :
  (clean_phone U v = []
   \/ (length (clean_phone U v) = 11 /\ phone_window U (clean_phone U v) = true))
  /\ clean_phone U (clean_phone U v) = clean_phone U v.
Proof.
  destruct (clean_phone_cases v) as [E | W].
  - rewrite E. split; [now left | reflexivity].
  - split; [right; split; [now apply phone_window_length | assumption] | ].
    set (w := clean_phone U v) in *.
    assert (Hocc : occurs (phone_window U) w).
    { exists [], w, []. split; [now rewrite app_nil_r | assumption]. }
    apply clean_phone_found in Hocc. destruct Hocc as (pre & (post & E & W') & Hmin).
    assert (Hpre : length pre <= 0).
    { apply (Hmin [] w). exists []. split; [now rewrite app_nil_r | assumption]. }
    destruct pre; [ | simpl in Hpre; lia ]. simpl in E.
    apply phone_window_length in W, W'.
    assert (Hpost : length post = 0).
    { apply (f_equal (@length N)) in E. rewrite length_app in E. lia. }
    destruct post; [ | discriminate ]. now rewrite app_nil_r in E.
Qed.

Lemma matches_cat_snoc (p : N -> bool) (rs : list regex) :
  forall w, matches (cat (rs ++ [Cls p])) w <->
            exists body l, w = body ++ [l] /\ matches (cat rs) body /\ p l = true.
Proof.
  induction rs as [ | r rs IH ]; intros w; cbn [app cat fold_right].
  - rewrite matches_cls_cat. split.
    + intros (c & w' & -> & Hp & M). apply matches_eps_inv in M. subst.
      exists [], c. repeat split; [constructor | assumption].
    + intros (body & l & -> & M & Hp). apply matches_eps_inv in M. subst.
      exists l, []. repeat split; [assumption | constructor].
  - fold (cat (rs ++ [Cls p])). fold (cat rs). rewrite matches_cat_inv. split.
    + intros (w1 & w2 & -> & M1 & M2). apply IH in M2.
      destruct M2 as (body & l & -> & M2 & Hp).
      exists (w1 ++ body), l. rewrite app_assoc. repeat split; [ | assumption ].
      now constructor.
    + intros (body & l & -> & M & Hp). apply matches_cat_inv in M.
      destruct M as (w1 & w2 & -> & M1 & M2).
      exists w1, (w2 ++ [l]). rewrite app_assoc. repeat split; [assumption | ].
      apply IH. now exists w2, l.
Qed.

Lemma between_digit (lo hi c : N) :
  (48 <= lo)%N -> (hi <= 57)%N -> between lo hi c = true -> is_digit U c = true.
Proof.
  intros Hlo Hhi H. apply between_true in H. apply closed_digit.
  apply between_true. unfold ch. simpl. lia.
Qed.

Lemma birth_chars_digits (y1 y2 m1 m2 a1 a2 : N) :
  century_chars y1 y2 = true -> month_chars m1 m2 = true -> day_chars U a1 a2 = true ->
  forallb (is_digit U) [y1; y2; m1; m2; a1; a2] = true.
Proof.
  unfold century_chars, month_chars, day_chars.
  rewrite !orb_true_iff, !andb_true_iff, !orb_true_iff, !N.eqb_eq.
  intros Hc Hm Hd. cbn [forallb]. rewrite !andb_true_iff.
  assert (D : forall lo hi c, (48 <= lo)%N -> (hi <= 57)%N ->
                              between lo hi c = true -> is_digit U c = true)
    by exact between_digit.
  repeat split.
  - destruct Hc as [[<- _] | [<- _]]; reflexivity.
  - destruct Hc as [[_ <-] | [_ <-]]; reflexivity.
  - destruct Hm as [[<- _] | [<- _]]; reflexivity.
  - destruct Hm as [[_ H] | [_ H]]; apply (D _ _ _) in H; try assumption;
      unfold ch; simpl; lia.
  - destruct Hd as [[[<- _] | [[-> | ->] _]] | [<- _]]; reflexivity.
  - destruct Hd as [[[_ H] | [_ H]] | [_ [-> | ->]]]; try reflexivity; try assumption.
    apply (D _ _ _) in H; try assumption; unfold ch; simpl; lia.
Qed.

(** The words of the 17 leading characters of the ID patterns. *)
Lemma id_body_shape (body : pystr) :
  matches (cat (id_body U)) body ->
  exists c0 d5 y1 y2 y3 y4 m1 m2 a1 a2 s3,
    body = c0 :: d5 ++ [y1; y2; y3; y4; m1; m2; a1; a2] ++ s3
    /\ between (ch "1") (ch "9") c0 = true
    /\ length d5 = 5 /\ forallb (is_digit U) d5 = true
    /\ century_chars y1 y2 = true
    /\ is_digit U y3 = true /\ is_digit U y4 = true
    /\ month_chars m1 m2 = true
    /\ day_chars U a1 a2 = true
    /\ length s3 = 3 /\ forallb (is_digit U) s3 = true.
Proof.
  unfold id_body. cbn [app cat fold_right alt]. fold (cat [lit "1"; lit "9"]).
  intros M. apply matches_cls_cat in M. destruct M as (c0 & w1 & -> & Hc0 & M).
  apply (proj1 (matches_rep_cat _ _ _ _)) in M.
  destruct M as (d5 & w2 & -> & Hd5 & Hd5' & M).
  apply matches_cat_inv in M. destruct M as (wy & w3 & -> & My & M).
  apply (proj1 (matches_rep_cat _ _ _ _)) in M.
  destruct M as (y34 & w4 & -> & Hy34 & Hy & M).
  apply matches_cat_inv in M. destruct M as (wm & w5 & -> & Mm & M).
  apply matches_cat_inv in M. destruct M as (wd & s3 & -> & Md & M).
  apply (proj1 (matches_rep_cat_eps _ _ _)) in M. destruct M as [Hs3 Hs3'].
  destruct y34 as [ | y3 [ | y4 [ | ] ] ]; try discriminate.
  simpl in Hy. apply andb_true_iff in Hy. destruct Hy as [Hy3 Hy4].
  rewrite andb_true_r in Hy4.
  assert (Hc : exists y1 y2, wy = [y1; y2] /\ century_chars y1 y2 = true).
  { apply matches_alt_inv in My.
    destruct My as [My | My]; apply matches_pair in My;
      destruct My as (y1 & y2 & -> & H1 & H2); exists y1, y2;
      (split; [reflexivity | ]); unfold century_chars; rewrite H1, H2;
      [reflexivity | apply orb_true_r]. }
  destruct Hc as (y1 & y2 & -> & Hc).
  assert (Hm : exists m1 m2, wm = [m1; m2] /\ month_chars m1 m2 = true).
  { apply matches_alt_inv in Mm.
    destruct Mm as [Mm | Mm]; apply matches_pair in Mm;
      destruct Mm as (m1 & m2 & -> & H1 & H2); exists m1, m2;
      (split; [reflexivity | ]); unfold month_chars; rewrite H1, H2;
      [reflexivity | apply orb_true_r]. }
  destruct Hm as (m1 & m2 & -> & Hm).
  assert (Hd : exists a1 a2, wd = [a1; a2] /\ day_chars U a1 a2 = true).
  { apply matches_alt_inv in Md. destruct Md as [Md | Md];
      [ | apply matches_alt_inv in Md; destruct Md as [Md | Md] ];
      apply matches_pair in Md; destruct Md as (a1 & a2 & -> & H1 & H2);
      exists a1, a2; (split; [reflexivity | ]); unfold day_chars.
    - now rewrite H1, H2.
    - unfold oneof in *. cbn [existsb] in H1. rewrite orb_false_r in H1.
      rewrite H1, H2. cbn [andb]. rewrite orb_true_r. reflexivity.
    - unfold oneof in *. cbn [existsb] in H2. rewrite orb_false_r in H2.
      rewrite H1, H2. apply orb_true_r. }
  destruct Hd as (a1 & a2 & -> & Hd).
  exists c0, d5, y1, y2, y3, y4, m1, m2, a1, a2, s3.
  repeat split; assumption.
Qed.

End CanonicalFields.

Section IdTexts.
Variable U : unicode_db.

(** A word of an ID pattern, character by character. *)
Lemma id_word_explicit (last : N -> bool) (w : pystr) :
  matches (cat (id_body U ++ [Cls last])) w ->
  exists c0 d1 d2 d3 d4 d5 y1 y2 y3 y4 m1 m2 a1 a2 s1 s2 s3 l,
    w = [c0; d1; d2; d3; d4; d5; y1; y2; y3; y4; m1; m2; a1; a2; s1; s2; s3; l]
    /\ matches (cat (id_body U))
               [c0; d1; d2; d3; d4; d5; y1; y2; y3; y4; m1; m2; a1; a2; s1; s2; s3]
    /\ between (ch "1") (ch "9") c0 = true
    /\ forallb (is_digit U)
         [c0; d1; d2; d3; d4; d5; y1; y2; y3; y4; m1; m2; a1; a2; s1; s2; s3] = true
    /\ century_chars y1 y2 = true
    /\ month_chars m1 m2 = true
    /\ day_chars U a1 a2 = true
    /\ last l = true.
Proof.
  intros M. apply matches_cat_snoc in M. destruct M as (body & l & -> & M & Hl).
  pose proof M as M'. apply id_body_shape in M'.
  destruct M' as (c0 & d5 & y1 & y2 & y3 & y4 & m1 & m2 & a1 & a2 & s3
                  & -> & Hc0 & Hd5 & Hd5' & Hc & Hy3 & Hy4 & Hm & Hd & Hs3 & Hs3').
  destruct d5 as [ | d1 [ | d2 [ | d3 [ | d4 [ | d5 [ | ] ] ] ] ] ]; try discriminate.
  destruct s3 as [ | s1 [ | s2 [ | s3 [ | ] ] ] ]; try discriminate.
  exists c0, d1, d2, d3, d4, d5, y1, y2, y3, y4, m1, m2, a1, a2, s1, s2, s3, l.
  split; [reflexivity | ]. split; [exact M | ]. split; [exact Hc0 | ].
  split; [ | now repeat split ].
  pose proof (birth_chars_digits U _ _ _ _ _ _ Hc Hm Hd) as Hb.
  cbn [forallb] in *. rewrite !andb_true_iff in *.
  assert (H0 : is_digit U c0 = true)
    by (apply (between_digit U _ _ _) in Hc0; [assumption | | ]; unfold ch; simpl; lia).
  intuition.
Qed.

Lemma id_last_not_space (l : N) :
  (is_digit U l || (l =? ch "X") || (l =? ch "x"))%N = true -> is_space l = false.
Proof.
  rewrite !orb_true_iff, !N.eqb_eq. intros [[H | ->] | ->]; [ | reflexivity | reflexivity ].
  now apply (is_digit_not_space U).
Qed.

(** X4: what [clean_id] returns is the empty string or a canonical ID
    text: 18 characters, 17 digits of which the first is not '0', then a
    digit or an upper-case 'X', with a century 19 or 20, a month 01-12 and
    a day 01-31 at the places of the birth date. *)
Theorem clean_id_canonical (raw : pystr) :
  clean_id U raw = [] \/ id_window U (clean_id U raw).
Proof.
  destruct (clean_id_word U raw) as [E | M]; [now left | right].
  unfold id_re in M. apply id_word_explicit in M.
  destruct M as (c0 & d1 & d2 & d3 & d4 & d5 & y1 & y2 & y3 & y4 & m1 & m2 & a1 & a2
                 & s1 & s2 & s3 & l & -> & _ & Hc0 & Hdig & Hc & Hm & Hd & Hl).
  unfold id_window. cbn [length firstn nth].
  repeat split; try assumption.
  apply orb_true_iff in Hl. destruct Hl as [Hl | Hl]; [now left | right].
  now apply N.eqb_eq in Hl.
Qed.

(** X5: an ID number of the twentieth century holds a phone text: when
    the characters 6-7 of a word of the ID pattern are "19", the detection
    counts every value that holds the word as a phone, and [clean_phone]
    finds a phone in it; the characters 6-16 are the first candidate. *)
Theorem id_number_holds_phone (w pre post : pystr) :
  matches (id_re_detect U) w ->
  slice 6 8 w = py "19" ->
  phone_window U (slice 6 17 w) = true
  /\ phone_hit U (pre ++ w ++ post) = true
  /\ clean_phone U (pre ++ w ++ post) <> [].
Proof.
  intros M H19. unfold id_re_detect in M. apply id_word_explicit in M.
  destruct M as (c0 & d1 & d2 & d3 & d4 & d5 & y1 & y2 & y3 & y4 & m1 & m2 & a1 & a2
                 & s1 & s2 & s3 & l & -> & _ & _ & Hdig & _ & _ & _ & _).
  injection H19 as -> ->.
  assert (W : phone_window U [49; 57; y3; y4; m1; m2; a1; a2; s1; s2; s3]%N = true).
  { cbn [forallb] in Hdig. rewrite !andb_true_iff in Hdig.
    unfold phone_window. cbn [length forallb]. rewrite !andb_true_iff.
    repeat split; try reflexivity; intuition. }
  assert (Hocc : occurs (phone_window U)
                   (pre ++ [c0; d1; d2; d3; d4; d5; 49; 57; y3; y4; m1; m2; a1; a2;
                            s1; s2; s3; l]%N ++ post)).
  { exists (pre ++ [c0; d1; d2; d3; d4; d5]),
           [49; 57; y3; y4; m1; m2; a1; a2; s1; s2; s3]%N, (l :: post).
    split; [ | exact W ]. rewrite <- !app_assoc. reflexivity. }
  split; [exact W | ]. split.
  - unfold phone_hit. pose proof (phone_search_found U _ Hocc) as Hs.
    now destruct (re_search (phone_re U) _).
  - apply clean_phone_found in Hocc. destruct Hocc as (p & (q & _ & W') & _).
    now apply phone_window_nonempty in W'.
Qed.

Lemma upper_char_digit (c : N) :
  upper_keeps_digits U -> is_digit U c = true -> upper_char U c = [c].
Proof.
  intros HU H. unfold is_digit in H. apply orb_true_iff in H. unfold upper_char.
  destruct H as [H | H].
  - apply between_true in H. unfold ch in H. simpl in H.
    assert (E1 : between (ch "a") (ch "z") c = false).
    { destruct (between _ _ c) eqn:E; [ | reflexivity ].
      apply between_true in E. unfold ch in E. simpl in E. lia. }
    rewrite E1. assert (E2 : (c <? 128)%N = true) by (apply N.ltb_lt; lia).
    now rewrite E2.
  - destruct (decimal U c) as [v | ] eqn:E; [ | discriminate ].
    pose proof (decimal_sound U c v E) as (_ & Hc & _).
    assert (E1 : between (ch "a") (ch "z") c = false).
    { destruct (between _ _ c) eqn:E'; [ | reflexivity ].
      apply between_true in E'. unfold ch in E'. simpl in E'. lia. }
    rewrite E1. assert (E2 : (c <? 128)%N = false) by (apply N.ltb_ge; lia).
    rewrite E2. now apply (HU c v).
Qed.

Lemma py_upper_digits (s : pystr) :
  upper_keeps_digits U -> forallb (is_digit U) s = true -> py_upper U s = s.
Proof.
  intros HU. induction s as [ | c s IH ]; [reflexivity | ].
  cbn [forallb]. rewrite andb_true_iff. intros [Hc Hs].
  unfold py_upper. cbn [flat_map]. rewrite (upper_char_digit c HU Hc).
  simpl. f_equal. now apply IH.
Qed.

Lemma py_upper_app (a b : pystr) : py_upper U (a ++ b) = py_upper U a ++ py_upper U b.
Proof.
  unfold py_upper. apply flat_map_app.
Qed.

(** A string that is a word of a pattern whose words have one length is
    what [re.search] finds in it. *)
Lemma re_search_whole (r : regex) (w : pystr) :
  matches r w -> (forall m, matches r m -> length m = length w) ->
  re_search r w = Some w.
Proof.
  intros M Hlen. destruct (re_search r w) as [m | ] eqn:E.
  - apply re_search_some in E. destruct E as (pre & post & E & Mm & Hmin).
    assert (Hpre : length pre <= 0)
      by (apply (Hmin [] w []); [now rewrite app_nil_r | assumption]).
    destruct pre; [ | simpl in Hpre; lia ]. simpl in E.
    assert (Hpost : length post = 0).
    { apply (f_equal (@length N)) in E. rewrite length_app, (Hlen m Mm) in E. lia. }
    destruct post; [ | discriminate ]. rewrite app_nil_r in E. now subst.
  - exfalso. apply (re_search_found r [] w [] M). now rewrite app_nil_r.
Qed.

Lemma id_word_length (last : N -> bool) (w : pystr) :
  matches (cat (id_body U ++ [Cls last])) w -> length w = 18.
Proof.
  intros M. apply id_word_explicit in M.
  now destruct M as (? & ? & ? & ? & ? & ? & ? & ? & ? & ? & ? & ? & ? & ? & ? & ? & ? & ?
                     & -> & _).
Qed.

(** X6: when [str.upper()] leaves digits as they are, a value the
    detection counts as an ID yields an ID number on extraction, and
    cleaning an extracted ID number again changes nothing. *)
Theorem clean_id_of_detected (v : pystr) :
  upper_keeps_digits U ->
  (id_hit U v = true -> clean_id U v <> [])
  /\ clean_id U (clean_id U v) = clean_id U v.
Proof.
  intros HU. split.
  - unfold id_hit. destruct (re_search (id_re_detect U) v) as [m | ] eqn:E; [ | discriminate ].
    intros _. apply re_search_some in E. destruct E as (pre & post & Ev & M & _).
    unfold id_re_detect in M. apply id_word_explicit in M.
    destruct M as (c0 & d1 & d2 & d3 & d4 & d5 & y1 & y2 & y3 & y4 & m1 & m2 & a1 & a2
                   & s1 & s2 & s3 & l & -> & Mb & Hc0 & Hdig & _ & _ & _ & Hl).
    set (body := [c0; d1; d2; d3; d4; d5; y1; y2; y3; y4; m1; m2; a1; a2; s1; s2; s3]) in *.
    assert (H0 : is_space c0 = false).
    { apply (is_digit_not_space U). apply (between_digit U _ _ _) in Hc0;
        [assumption | | ]; unfold ch; simpl; lia. }
    pose proof (id_last_not_space l Hl) as Hls.
    destruct (strip_window v pre post body
                [d1; d2; d3; d4; d5; y1; y2; y3; y4; m1; m2; a1; a2; s1; s2; s3; l]
                c0 l H0 Hls eq_refl Ev) as [Es _].
    assert (Hup : exists l', upper_char U l = [l']
                             /\ (is_digit U l' || (l' =? ch "X")%N) = true).
    { rewrite !orb_true_iff, !N.eqb_eq in Hl. destruct Hl as [[Hl | ->] | ->].
      - exists l. split; [now apply upper_char_digit | now rewrite Hl].
      - exists (ch "X"). split; [reflexivity | apply orb_true_r].
      - exists (ch "X"). split; [reflexivity | apply orb_true_r]. }
    destruct Hup as (l' & El & Hl').
    assert (Em : py_upper U (body ++ [l]) = body ++ [l']).
    { rewrite py_upper_app, (py_upper_digits body HU Hdig).
      unfold py_upper. cbn [flat_map]. now rewrite El, app_nil_r. }
    assert (M' : matches (id_re U) (body ++ [l'])).
    { unfold id_re. apply matches_cat_snoc. now exists body, l'. }
    unfold clean_id.
    assert (Hv : truthy v = true) by (rewrite Ev; now destruct pre).
    rewrite Hv. cbn [negb]. rewrite Es.
    change (c0 :: [d1; d2; d3; d4; d5; y1; y2; y3; y4; m1; m2; a1; a2; s1; s2; s3; l])
      with (body ++ [l]).
    rewrite (py_upper_app (lstrip pre)), (py_upper_app (body ++ [l]) (rstrip post)), Em.
    pose proof (re_search_found (id_re U) (py_upper U (lstrip pre))
                  (body ++ [l']) (py_upper U (rstrip post)) M') as Hs.
    destruct (re_search (id_re U) _) as [m' | ] eqn:E'; [ | congruence ].
    cbn [group_or_empty]. apply re_search_some in E'.
    destruct E' as (p & q & _ & Mm & _). apply id_word_nonempty in Mm.
    intros ->. discriminate.
  - destruct (clean_id_word U v) as [E | M]; [now rewrite E | ].
    set (w := clean_id U v) in *.
    pose proof M as Mx. unfold id_re in Mx. apply id_word_explicit in Mx.
    destruct Mx as (c0 & d1 & d2 & d3 & d4 & d5 & y1 & y2 & y3 & y4 & m1 & m2 & a1 & a2
                    & s1 & s2 & s3 & l & Ew & _ & Hc0 & Hdig & _ & _ & _ & Hl).
    set (body := [c0; d1; d2; d3; d4; d5; y1; y2; y3; y4; m1; m2; a1; a2; s1; s2; s3]) in *.
    assert (H0 : is_space c0 = false).
    { apply (is_digit_not_space U). apply (between_digit U _ _ _) in Hc0;
        [assumption | | ]; unfold ch; simpl; lia. }
    assert (Hls : is_space l = false)
      by (apply id_last_not_space; rewrite Hl; reflexivity).
    assert (Es : strip w = w).
    { destruct (strip_window w [] [] body
                  [d1; d2; d3; d4; d5; y1; y2; y3; y4; m1; m2; a1; a2; s1; s2; s3; l]
                  c0 l H0 Hls eq_refl) as [Es _].
      - rewrite Ew. reflexivity.
      - rewrite Es, Ew. reflexivity. }
    assert (Eu : py_upper U w = w).
    { rewrite Ew. change (py_upper U (body ++ [l]) = body ++ [l]).
      rewrite py_upper_app, (py_upper_digits body HU Hdig).
      unfold py_upper. cbn [flat_map]. rewrite app_nil_r.
      f_equal. rewrite orb_true_iff, N.eqb_eq in Hl. destruct Hl as [Hl | ->];
        [now apply upper_char_digit | reflexivity]. }
    unfold clean_id at 1.
    rewrite (id_word_nonempty U w M). cbn [negb]. rewrite Es, Eu.
    rewrite (re_search_whole (id_re U) w M); [reflexivity | ].
    intros m Mm. unfold id_re in *.
    now rewrite (id_word_length _ m Mm), (id_word_length _ w M).
Qed.

End IdTexts.

(** An instance of [id_number_holds_phone]: the ID number
    110101199001011234 inside a remark. *)
Lemma id_number_holds_phone_example :
  matches (id_re_detect sample_db) (py "110101199001011234")
  /\ slice 6 8 (py "110101199001011234") = py "19"
  /\ phone_window sample_db (slice 6 17 (py "110101199001011234")) = true
  /\ phone_hit sample_db (py "id " ++ py "110101199001011234" ++ py ".") = true
  /\ clean_phone sample_db (py "id " ++ py "110101199001011234" ++ py ".") <> [].
Proof.
  assert (M : matches (id_re_detect sample_db) (py "110101199001011234"))
    by (apply re_fullmatch_iff; vm_compute; reflexivity).
  assert (H : slice 6 8 (py "110101199001011234") = py "19") by reflexivity.
  split; [exact M | split; [exact H | ] ].
  exact (id_number_holds_phone sample_db (py "110101199001011234")
           (py "id ") (py ".") M H).
Defined.

Lemma sample_upper_keeps_digits : upper_keeps_digits sample_db.
Proof.
  intros c v _. reflexivity.
Qed.

(** An instance of [clean_id_of_detected]: an ID number ending in a
    lower-case x. *)
Lemma clean_id_of_detected_example :
  upper_keeps_digits sample_db
  /\ (id_hit sample_db (py " 11010119900101123x ") = true ->
      clean_id sample_db (py " 11010119900101123x ") <> [])
  /\ clean_id sample_db (clean_id sample_db (py " 11010119900101123x "))
     = clean_id sample_db (py " 11010119900101123x ").
Proof.
  split; [exact sample_upper_keeps_digits | ].
  exact (clean_id_of_detected sample_db (py " 11010119900101123x ")
           sample_upper_keeps_digits).
Defined.

(* ================================================================== *)
(** * The columns a successful detection returns *)

Section DetectedColumns.
Variable U : unicode_db.

Lemma Qltb_lt (a b : Q) : Qltb a b = true <-> (a < b)%Q.
Proof.
  unfold Qltb. rewrite negb_true_iff. split.
  - intros H. apply Qnot_le_lt. intros Hle. apply Qle_bool_iff in Hle. congruence.
  - intros H. destruct (Qle_bool b a) eqn:E; [ | reflexivity ].
    apply Qle_bool_iff in E. exfalso. now apply (Qlt_not_le a b).
Qed.

Lemma Qltb_ge (a b : Q) : Qltb a b = false <-> (b <= a)%Q.
Proof.
  unfold Qltb. rewrite negb_false_iff. apply Qle_bool_iff.
Qed.

(** [max(xs, key=f)] is the first of the greatest elements. *)
Lemma max_from_first {X : Type} (f : X -> Q) :
  forall (xs pre mid : list X) (best : X),
    (forall y, In y pre -> (f y < f best)%Q) ->
    (forall y, In y mid -> (f y <= f best)%Q) ->
    exists before after,
      pre ++ best :: mid ++ xs = before ++ max_from f best xs :: after
      /\ (forall y, In y before -> (f y < f (max_from f best xs))%Q)
      /\ (forall y, In y after -> (f y <= f (max_from f best xs))%Q).
Proof.
  induction xs as [ | x xs IH ]; intros pre mid best Hpre Hmid.
  - exists pre, mid. rewrite app_nil_r. now repeat split.
  - cbn [max_from]. destruct (Qltb (f best) (f x)) eqn:E.
    + apply Qltb_lt in E.
      destruct (IH (pre ++ best :: mid) [] x) as (before & after & Eq & Hb & Ha).
      * intros y Hy. apply in_app_iff in Hy. destruct Hy as [Hy | [<- | Hy]].
        -- apply Qlt_trans with (f best); [now apply Hpre | assumption].
        -- assumption.
        -- apply Qle_lt_trans with (f best); [now apply Hmid | assumption].
      * intros y [].
      * exists before, after. split; [ | now split ].
        rewrite <- Eq. rewrite <- !app_assoc. reflexivity.
    + apply Qltb_ge in E.
      destruct (IH pre (mid ++ [x]) best Hpre) as (before & after & Eq & Hb & Ha).
      * intros y Hy. apply in_app_iff in Hy. destruct Hy as [Hy | [<- | []]];
          [now apply Hmid | assumption].
      * exists before, after. split; [ | now split ].
        rewrite <- Eq. rewrite <- !app_assoc. reflexivity.
Qed.

Lemma py_max_first {X : Type} (f : X -> Q) (xs : list X) (e : X) :
  py_max f xs = Some e ->
  exists before after,
    xs = before ++ e :: after
    /\ (forall y, In y before -> (f y < f e)%Q)
    /\ (forall y, In y after -> (f y <= f e)%Q).
Proof.
  destruct xs as [ | x xs ]; [discriminate | ]. cbn [py_max]. intros [= <-].
  destruct (max_from_first f xs [] [] x) as (before & after & Eq & Hb & Ha);
    [intros y [] | intros y [] | ].
  now exists before, after.
Qed.

Lemma first_pick_first_best (key : score -> Q) (scores : list (label * score)) (l : label) :
  first_pick key scores = inr (Some l) ->
  exists before e after,
    scores = before ++ e :: after /\ fst e = l
    /\ (threshold < key (snd e))%Q
    /\ (forall y, In y before -> (key (snd y) < key (snd e))%Q)
    /\ (forall y, In y after -> (key (snd y) <= key (snd e))%Q).
Proof.
  intros H. pose proof (first_pick_above key scores l H) as (e' & He' & Habove).
  unfold first_pick in H.
  destruct (py_max (fun v => v) _) as [top | ]; [ | discriminate ].
  destruct (Qltb threshold top); [ | discriminate ].
  destruct (py_max (fun e => key (snd e)) scores) as [e | ] eqn:E; [ | discriminate ].
  injection H as <-. apply py_max_first in E.
  destruct E as (before & after & -> & Hb & Ha).
  exists before, e, after. repeat split; try assumption.
  apply Qltb_lt in Habove. apply Qlt_le_trans with (key (snd e')); [assumption | ].
  apply in_app_iff in He'. destruct He' as [Hin | [<- | Hin]].
  - apply Qlt_le_weak. now apply Hb.
  - apply Qle_refl.
  - now apply Ha.
Qed.

(** The three first picks behind a successful detection, and what the
    resolution made of them. *)
Lemma detect_columns_resolved (df : table) (n p i : label) :
  detect_columns U df = inr (n, p, i) ->
  exists name_col phone_col,
    first_pick s_name (score_table U df) = inr name_col
    /\ first_pick s_phone (score_table U df) = inr phone_col
    /\ first_pick s_id (score_table U df) = inr (Some i)
    /\ resolve (map col_label df) (score_table U df) name_col phone_col (Some i)
       = (Some n, Some p, Some i)
    /\ truthy i = true.
Proof.
  unfold detect_columns.
  destruct (first_pick s_name _) as [e1 | name_col]; [discriminate | ].
  destruct (first_pick s_phone _) as [e2 | phone_col]; [discriminate | ].
  destruct (first_pick s_id _) as [e3 | id_col]; [discriminate | ].
  pose proof (resolve_keeps_id (map col_label df) (score_table U df)
                name_col phone_col id_col) as Hid.
  destruct (resolve _ _ _ _ _) as [[n' p'] i'] eqn:R. simpl in Hid. subst i'.
  destruct (missing_fields n' p' id_col) eqn:M; [ | discriminate ].
  destruct n' as [n' | ]; [ | discriminate ].
  destruct p' as [p' | ]; [ | discriminate ].
  destruct id_col as [i' | ]; [ | discriminate ].
  intros [= <- <- <-]. exists name_col, phone_col.
  repeat split; try assumption.
  unfold missing_fields in M. cbn [col_truthy] in M.
  destruct (truthy i'); [reflexivity | ].
  apply app_eq_nil in M. destruct M as [_ M]. apply app_eq_nil in M.
  destruct M as [_ M]. discriminate.
Qed.

(** X7: the ID column of a successful detection is the first column
    with the greatest ID score, and that score exceeds 0.3: no other field
    displaces it. *)
Theorem detect_id_is_first_best (df : table) (n p i : label) :
  detect_columns U df = inr (n, p, i) ->
  exists before c after,
    df = before ++ c :: after /\ col_label c = i
    /\ (threshold < s_id (score_column U c))%Q
    /\ (forall c', In c' before -> (s_id (score_column U c') < s_id (score_column U c))%Q)
    /\ (forall c', In c' after -> (s_id (score_column U c') <= s_id (score_column U c))%Q).
Proof.
  intros D. apply detect_columns_resolved in D.
  destruct D as (name_col & phone_col & _ & _ & Hi & _ & _).
  apply first_pick_first_best in Hi.
  destruct Hi as (before & e & after & Es & He & Habove & Hb & Ha).
  unfold score_table in Es. apply map_eq_app in Es.
  destruct Es as (dfb & rest & -> & Eb & Er).
  apply map_eq_cons in Er. destruct Er as (c & dfa & -> & Ec & Ea).
  subst e before after. cbn [fst snd] in *.
  exists dfb, c, dfa. repeat split; try assumption.
  - intros c' Hc'. apply (Hb (col_label c', score_column U c')).
    apply in_map_iff. now exists c'.
  - intros c' Hc'. apply (Ha (col_label c', score_column U c')).
    apply in_map_iff. now exists c'.
Qed.

Lemma pystr_eqb_eq (a b : pystr) : PyStr.eqb a b = true -> a = b.
Proof.
  revert b. induction a as [ | x a IH ]; destruct b as [ | y b ]; simpl;
    try discriminate; [reflexivity | ].
  rewrite andb_true_iff, N.eqb_eq. intros [-> H]. f_equal. now apply IH.
Qed.

Lemma mem_in (c : label) (used : list label) : mem c used = true <-> In c used.
Proof.
  unfold mem. rewrite existsb_exists. split.
  - intros (x & Hx & E). apply pystr_eqb_eq in E. now subst.
  - intros H. exists c. split; [assumption | apply pystr_eqb_refl].
Qed.

Lemma mem_not_in (c : label) (used : list label) : mem c used = false <-> ~ In c used.
Proof.
  rewrite <- mem_in. now destruct (mem c used).
Qed.

Lemma claim_fresh (col : option label) (used used' : list label) :
  claim col used = Some used' ->
  exists l, col = Some l /\ ~ In l used /\ used' = l :: used.
Proof.
  unfold claim. destruct col as [l | ]; [ | discriminate ].
  destruct (truthy l); [ | discriminate ]. cbn [andb].
  destruct (mem l used) eqn:E; [discriminate | ]. intros [= <-].
  exists l. repeat split. now apply mem_not_in.
Qed.

(** A column chosen again is outside [used], when a column is. *)
Lemma reselect_fresh (key : score -> Q) (columns : list label)
    (scores : list (label * score)) (used : list label) (current : option label)
    (l : label) :
  (exists c, In c columns /\ ~ In c used) ->
  reselect key columns scores used current = Some l ->
  In l columns /\ ~ In l used.
Proof.
  intros (c & Hc & Hfree). unfold reselect.
  destruct (map _ (filter _ columns)) as [ | x xs ] eqn:E; cbn [py_max].
  - exfalso.
    assert (Hin : In c (filter (fun c0 => negb (mem c0 used)) columns)).
    { apply filter_In. split; [assumption | ]. apply negb_true_iff. now apply mem_not_in. }
    apply map_eq_nil in E. now rewrite E in Hin.
  - destruct (Qle_bool _ _); [discriminate | ]. intros [= <-].
    assert (Hin := max_from_in snd xs x). rewrite <- E in Hin.
    apply in_map_iff in Hin. destruct Hin as (c' & Hc' & Hin). rewrite <- Hc'.
    apply filter_In in Hin. destruct Hin as [Hin Hm]. split; [assumption | ].
    apply negb_true_iff in Hm. now apply mem_not_in.
Qed.

(** X8: where the columns of a successful detection do differ: the phone
    column is not the ID column when the table has a column with another
    label than the ID column, and the name column is not the ID column when
    the table has a column with a label other than those of the ID and
    phone columns. *)
Theorem detect_keeps_id_apart (df : table) (n p i : label) :
  detect_columns U df = inr (n, p, i) ->
  ((exists c, In c df /\ col_label c <> i) -> p <> i)
  /\ ((exists c, In c df /\ col_label c <> i /\ col_label c <> p) -> n <> i).
Proof.
  intros D. apply detect_columns_resolved in D.
  destruct D as (name_col & phone_col & _ & _ & _ & R & Hi).
  assert (C0 : claim (Some i) [] = Some [i]) by (unfold claim; rewrite Hi; reflexivity).
  unfold resolve in R. cbv zeta in R. rewrite C0 in R.
  split.
  - intros (c & Hc & Hne). intros ->.
    destruct (claim phone_col [i]) as [u | ] eqn:Cp.
    + apply claim_fresh in Cp. destruct Cp as (l & -> & Hl & ->).
      destruct (claim name_col _); injection R as _ Ep; apply Hl; left; congruence.
    + destruct (claim name_col [i]); injection R as _ Ep;
        apply reselect_fresh in Ep;
        try (exists (col_label c); split; [now apply in_map | intros [H | []]; congruence]);
        destruct Ep as [_ Ep]; apply Ep; now left.
  - intros (c & Hc & Hne & Hnp). intros ->.
    destruct (claim phone_col [i]) as [u | ] eqn:Cp.
    + apply claim_fresh in Cp. destruct Cp as (l & -> & Hl & ->).
      destruct (claim name_col (l :: [i])) as [u' | ] eqn:Cn.
      * apply claim_fresh in Cn. destruct Cn as (l' & -> & Hl' & _).
        injection R as En _. apply Hl'. right. left. congruence.
      * injection R as En Ep. subst l.
        apply reselect_fresh in En.
        -- destruct En as [_ En]. apply En. right. now left.
        -- exists (col_label c). split; [now apply in_map | ].
           intros [H | [H | []]]; congruence.
    + destruct (claim name_col [i]) as [u' | ] eqn:Cn.
      * apply claim_fresh in Cn. destruct Cn as (l' & -> & Hl' & _).
        injection R as En _. apply Hl'. left. congruence.
      * injection R as En Ep. apply reselect_fresh in En.
        -- destruct En as [_ En]. apply En. now left.
        -- exists (col_label c). split; [now apply in_map | ].
           intros [H | []]; congruence.
Qed.

End DetectedColumns.

(** An instance of [detect_id_is_first_best]: the scenario table. *)
Lemma detect_id_is_first_best_example :
  detect_columns sample_db scenario_table = inr (py "X", py "Y", py "Z")
  /\ exists before c after,
      scenario_table = before ++ c :: after /\ col_label c = py "Z"
      /\ (threshold < s_id (score_column sample_db c))%Q
      /\ (forall c', In c' before ->
            (s_id (score_column sample_db c') < s_id (score_column sample_db c))%Q)
      /\ (forall c', In c' after ->
            (s_id (score_column sample_db c') <= s_id (score_column sample_db c))%Q).
Proof.
  assert (D : detect_columns sample_db scenario_table = inr (py "X", py "Y", py "Z"))
    by (vm_compute; reflexivity).
  split; [exact D | exact (detect_id_is_first_best sample_db scenario_table _ _ _ D)].
Defined.

(** An instance of [detect_keeps_id_apart]: the table of C2, where name
    and phone fall on one column and both stay apart from the ID column. *)
Lemma detect_keeps_id_apart_example :
  detect_columns sample_db id_and_mixed_table = inr (py "B", py "B", py "A")
  /\ ((exists c, In c id_and_mixed_table /\ col_label c <> py "A") -> py "B" <> py "A")
  /\ ((exists c, In c id_and_mixed_table /\ col_label c <> py "A" /\ col_label c <> py "B")
      -> py "B" <> py "A").
Proof.
  assert (D : detect_columns sample_db id_and_mixed_table = inr (py "B", py "B", py "A"))
    by (vm_compute; reflexivity).
  split; [exact D | exact (detect_keeps_id_apart sample_db id_and_mixed_table _ _ _ D)].
Defined.

(* ================================================================== *)
(** * Scores *)

Section ScoreFacts.
Variable U : unicode_db.

(** A value that counts as a name counts neither as a phone nor as an ID. *)
Lemma name_excludes_numbers (v : pystr) :
  name_hit v = true -> phone_hit U v = false /\ id_hit U v = false.
Proof.
  rewrite name_hit_han. unfold han_2_to_4. rewrite !andb_true_iff.
  intros [_ Hhan]. rewrite forallb_forall in Hhan. split.
  - unfold phone_hit. destruct (re_search (phone_re U) v) as [m | ] eqn:E; [ | reflexivity ].
    apply re_search_some in E. destruct E as (pre & post & -> & M & _).
    apply matches_phone in M. destruct m as [ | a m ]; [discriminate | ].
    assert (Ha : is_han a = true) by (apply Hhan; rewrite !in_app_iff; right; left; now left).
    unfold phone_window in M. destruct m; [discriminate | ].
    rewrite !andb_true_iff, N.eqb_eq in M. destruct M as [[[<- _] _] _]. discriminate.
  - unfold id_hit. destruct (re_search (id_re_detect U) v) as [m | ] eqn:E; [ | reflexivity ].
    apply re_search_some in E. destruct E as (pre & post & -> & M & _).
    unfold id_re_detect in M. apply id_word_explicit in M.
    destruct M as (c0 & ? & ? & ? & ? & ? & ? & ? & ? & ? & ? & ? & ? & ? & ? & ? & ? & ?
                   & -> & _ & Hc0 & _).
    assert (Ha : is_han c0 = true) by (apply Hhan; rewrite !in_app_iff; right; left; now left).
    apply between_true in Hc0, Ha. unfold ch in Hc0. simpl in Hc0. lia.
Qed.

Lemma hits_le (p : pystr -> bool) (values : list pystr) :
  hits p values <= length values.
Proof.
  apply filter_length_le.
Qed.

Lemma hits_exclusive (p q : pystr -> bool) (values : list pystr) :
  (forall v, p v = true -> q v = false) ->
  hits p values + hits q values <= length values.
Proof.
  intros Hpq. unfold hits. induction values as [ | v vs IH ]; simpl; [lia | ].
  destruct (p v) eqn:Ep.
  - rewrite (Hpq v Ep). simpl. lia.
  - destruct (q v); simpl; lia.
Qed.

Lemma normalize_unit (raw total : nat) :
  raw <= total -> (0 <= normalize raw total /\ normalize raw total <= 1)%Q.
Proof.
  intros H. unfold normalize. destruct total as [ | t ]; cbn [Nat.eqb].
  - split; [apply Qle_refl | discriminate].
  - split; unfold Qle; cbn [Qnum Qden];
      rewrite <- ?Pos.of_nat_succ, ?Zpos_P_of_succ_nat; lia.
Qed.

Lemma normalize_sum (a b total : nat) :
  a + b <= total -> (normalize a total + normalize b total <= 1)%Q.
Proof.
  intros H. unfold normalize. destruct total as [ | t ]; cbn [Nat.eqb].
  - discriminate.
  - unfold Qle, Qplus. cbn [Qnum Qden].
    rewrite Pos2Z.inj_mul, <- Pos.of_nat_succ, Zpos_P_of_succ_nat. nia.
Qed.

(** X9: the three scores of a column are fractions between 0 and 1 of a
    sample of at most 100 values; a value counted as a name is counted
    neither as a phone nor as an ID, so the name score and either of the
    other two scores of a column add up to at most 1. *)
Theorem score_column_bounds (c : column) :
  length (sample c) <= 100
  /\ (0 <= s_name (score_column U c) <= 1)%Q
  /\ (0 <= s_phone (score_column U c) <= 1)%Q
  /\ (0 <= s_id (score_column U c) <= 1)%Q
  /\ (s_name (score_column U c) + s_phone (score_column U c) <= 1)%Q
  /\ (s_name (score_column U c) + s_id (score_column U c) <= 1)%Q.
Proof.
  unfold score_column. cbn [s_name s_phone s_id].
  split; [unfold sample; apply firstn_le_length | ].
  split; [apply normalize_unit, hits_le | ].
  split; [apply normalize_unit, hits_le | ].
  split; [apply normalize_unit, hits_le | ].
  split; apply normalize_sum, hits_exclusive; intros v Hv;
    now apply name_excludes_numbers in Hv.
Qed.

End ScoreFacts.

(* ================================================================== *)
(** * Age over time *)

Section AgeOverTime.
Variable U : unicode_db.

(** X10: whether an ID number has an age does not depend on the current
    date; the age never decreases from a date to a later one, and between
    two dates with the same month and day it grows by the difference of the
    years. *)
Theorem age_grows_with_time (id_card : pystr) (t1 t2 : date) :
  (calculate_age U t1 id_card = None <-> calculate_age U t2 id_card = None)
  /\ forall a1 a2,
       calculate_age U t1 id_card = Some a1 ->
       calculate_age U t2 id_card = Some a2 ->
       (not_after (year t1) (month t1) (day t1) (year t2) (month t2) (day t2)
        -> a1 <= a2)%Z
       /\ (month t1 = month t2 -> day t1 = day t2 -> a2 - a1 = year t2 - year t1)%Z.
Proof.
  unfold calculate_age. destruct (negb (truthy id_card)); [ | ].
  - split; [tauto | discriminate].
  - destruct (strptime_Ymd U (slice 6 14 id_card)) as [b | ].
    + split; [split; discriminate | ].
      intros a1 a2 [= <-] [= <-]. split.
      * intros Hle.
        destruct (pair_ltb (month t1, day t1) (month b, day b)) eqn:E1;
          destruct (pair_ltb (month t2, day t2) (month b, day b)) eqn:E2;
          unfold not_after, lex_lt in Hle;
          try (apply pair_ltb_lex in E1; unfold lex_lt in E1);
          try (apply pair_ltb_lex in E2; unfold lex_lt in E2);
          try (assert (E1' : ~ lex_lt (month t1) (day t1) (month b) (day b))
                 by (rewrite <- pair_ltb_lex; congruence); unfold lex_lt in E1');
          try (assert (E2' : ~ lex_lt (month t2) (day t2) (month b) (day b))
                 by (rewrite <- pair_ltb_lex; congruence); unfold lex_lt in E2');
          lia.
      * intros -> ->. destruct (pair_ltb _ _); lia.
    + split; [tauto | discriminate].
Qed.


End AgeOverTime.

(* ================================================================== *)
(** * One record per row, and every record in the report *)

Section RecordsAndRows.
Variable U : unicode_db.
Variable today : date.

Lemma zip3_length (a b c : list cell) (n : nat) :
  length a = n -> length b = n -> length c = n -> length (zip3 a b c) = n.
Proof.
  revert b c n. induction a as [ | x a IH ]; intros [ | y b ] [ | z c ] n; simpl;
    intros Ha Hb Hc; try congruence.
  destruct n; [discriminate | ]. f_equal. apply IH; congruence.
Qed.

Lemma zip3_nth (a b c : list cell) :
  forall k x y z,
    nth_error a k = Some x -> nth_error b k = Some y -> nth_error c k = Some z ->
    nth_error (zip3 a b c) k = Some (x, y, z).
Proof.
  revert b c. induction a as [ | x0 a IH ]; intros [ | y0 b ] [ | z0 c ] [ | k ] x y z;
    simpl; try discriminate.
  - now intros [= ->] [= ->] [= ->].
  - apply IH.
Qed.

(** X12: after a successful detection on a rectangular table, the
    extraction gives one record per row, in the order of the rows: the
    record at a position is made of the cells of the three detected columns
    at that position. *)
Theorem base_df_one_record_per_row (df : table) (rows : nat) (n p i : label) :
  (forall c, In c df -> length (col_cells c) = rows) ->
  detect_columns U df = inr (n, p, i) ->
  length (base_df U today df n p i) = rows
  /\ forall k x y z,
       nth_error (cells_of df n) k = Some x ->
       nth_error (cells_of df p) k = Some y ->
       nth_error (cells_of df i) k = Some z ->
       nth_error (base_df U today df n p i) k = Some (make_record U today x y z).
Proof.
  intros Hrect D. apply detect_columns_labels in D. destruct D as (Hn & Hp & Hi & _).
  assert (Hlen : forall l, In l (map col_label df) -> length (cells_of df l) = rows).
  { intros l Hl. destruct (cells_of_column df l Hl) as (c & Hc & ->). now apply Hrect. }
  unfold base_df. split.
  - rewrite length_map. apply zip3_length; now apply Hlen.
  - intros k x y z Hx Hy Hz.
    rewrite nth_error_map, (zip3_nth _ _ _ k x y z Hx Hy Hz). reflexivity.
Qed.

Lemma records_of_app (a b : list out_row) :
  records_of (a ++ b) = records_of a ++ records_of b.
Proof.
  unfold records_of. apply flat_map_app.
Qed.

Lemma records_of_data (l : list record) : records_of (map DataRow l) = l.
Proof.
  induction l as [ | r l IH ]; [reflexivity | ].
  unfold records_of in *. simpl. now rewrite IH.
Qed.

Lemma records_of_section (base : list record) (b : band) :
  records_of (band_section base b) = band_main b base ++ band_sub b base.
Proof.
  unfold band_section, band_main, band_sub.
  destruct (in_band b base) as [ | r rs ] eqn:E; [reflexivity | ].
  rewrite <- E, !records_of_app, !records_of_data.
  destruct (band_eqb b Unknown); cbn; now rewrite app_nil_r.
Qed.

Lemma perm_insert {X : Type} (x : X) (l1 l2 l : list X) :
  Permutation (l1 ++ l2) l -> Permutation (l1 ++ x :: l2) (x :: l).
Proof.
  intros H. apply Permutation_sym, Permutation_cons_app. now apply Permutation_sym.
Qed.

(** Every record is in the band of its [r_cat]. *)
Lemma bands_partition (base : list record) :
  Permutation (flat_map (fun b => in_band b base) category_order) base.
Proof.
  unfold category_order, in_band. cbn [flat_map]. rewrite app_nil_r.
  induction base as [ | r base IH ]; [constructor | ].
  cbn [filter]. destruct (r_cat r); cbn [band_eqb app];
    first [ now apply perm_skip
          | rewrite ?app_assoc; apply perm_insert; rewrite <- ?app_assoc; exact IH ].
Qed.

End RecordsAndRows.

Section ReportContents.

Lemma section_length (base : list record) (b : band) :
  length (band_section base b)
  = match in_band b base with
    | [] => 0
    | _ :: _ => length (in_band b base) + (if band_eqb b Unknown then 1 else 2)
    end.
Proof.
  unfold band_section.
  pose proof (Permutation_length (filter_partition (sub_condition b) (in_band b base))) as Hl.
  rewrite length_app in Hl. fold (band_main b base) in Hl. fold (band_sub b base) in Hl.
  destruct (in_band b base) as [ | r rs ] eqn:E; [reflexivity | ].
  rewrite !length_app, !length_map.
  destruct (band_eqb b Unknown); simpl in *; lia.
Qed.

(** X13: the report keeps every record: its data rows carry the records
    of the input, each once (in another order); besides them it has one
    count row for every band with records and one blank row for every such
    band but Unknown. *)
Theorem assemble_keeps_every_record (base : list record) (rows : list out_row) :
  assemble base = Some rows ->
  Permutation (records_of rows) base
  /\ length rows
     = length base + 2 * length (bands_with_records base)
       - (if is_empty (in_band Unknown base) then 0 else 1).
Proof.
  rewrite assemble_rows. destruct base as [ | r0 rs ]; [discriminate | ].
  set (base := r0 :: rs). intros [= <-]. split.
  - apply Permutation_trans with (flat_map (fun b => in_band b base) category_order);
      [ | apply bands_partition ].
    unfold category_order. cbn [flat_map].
    rewrite !records_of_app, !records_of_section. unfold records_of at 1. cbn [flat_map].
    repeat (apply Permutation_app; [apply filter_partition | ]).
    constructor.
  - pose proof (Permutation_length (bands_partition base)) as Hl.
    unfold bands_with_records. unfold category_order in *. cbn [flat_map filter] in *.
    rewrite !length_app in *. rewrite !section_length. cbn [band_eqb length] in *.
    destruct (in_band Adult base), (in_band Youth base), (in_band Child base),
      (in_band Senior base), (in_band Unknown base);
      cbn [is_empty negb length] in *; lia.
Qed.

End ReportContents.

Lemma scenario_report_rows :
  assemble scenario_records
  = Some [ DataRow (person li_si 40); DataRow (person zhang_san 24);
           CountRow Adult 2; BlankRow;
           DataRow (person wang_wu 3); CountRow Child 1; BlankRow ].
Proof.
  vm_compute. reflexivity.
Defined.

(** An instance of [assemble_keeps_every_record]: the scenario records. *)
Lemma assemble_keeps_every_record_example :
  exists rows,
    assemble scenario_records = Some rows
    /\ Permutation (records_of rows) scenario_records
    /\ length rows
       = length scenario_records + 2 * length (bands_with_records scenario_records)
         - (if is_empty (in_band Unknown scenario_records) then 0 else 1).
Proof.
  eexists. split; [exact scenario_report_rows | ].
  exact (assemble_keeps_every_record scenario_records _ scenario_report_rows).
Defined.

(* ================================================================== *)
(** * The batch driver *)

Section BatchFacts.
Variable U : unicode_db.
Variable lower : N -> list N.


Lemma output_exists_app (a b : list (pystr * content)) (f : pystr) :
  output_exists (a ++ b) f = output_exists a f || output_exists b f.
Proof.
  unfold output_exists. apply existsb_app.
Qed.

(** One file: the output directory grows by the report of the file when
    it has no output yet, and the message is the one of its outcome. *)
Lemma main_step_spec (today : date) (outputs : list (pystr * content))
    (log : list event) (e : entry) :
  main_step U today (outputs, log) e
  = (outputs ++ (if output_exists outputs (e_name e) then [] else report_of U today e),
     log ++ [event_for U today outputs e]).
Proof.
  unfold main_step, event_for, report_of.
  destruct (output_exists outputs (e_name e)); [now rewrite app_nil_r | ].
  destruct (e_table e) as [df | ]; [ | now rewrite app_nil_r ].
  destruct (process_excel U today df); [now rewrite app_nil_r | reflexivity].
Qed.






(** Whether [process_excel] fails does not depend on the current date. *)
Lemma process_excel_failure_fixed (t1 t2 : date) (df : table) (why : failure) :
  process_excel U t1 df = inl why -> process_excel U t2 df = inl why.
Proof.
  unfold process_excel. destruct (detect_columns U df) as [e | [[n p] i]]; [trivial | ].
  rewrite !assemble_rows. unfold base_df.
  destruct (zip3 _ _ _) as [ | x xs ]; cbn [map]; [trivial | discriminate].
Qed.

Lemma main_step_fixed (t1 t2 : date) (outputs final : list (pystr * content))
    (log log' : list event) (e : entry) :
  covers final (fst (main_step U t1 (outputs, log) e)) ->
  fst (main_step U t2 (final, log') e) = final.
Proof.
  rewrite !main_step_spec. cbn [fst]. intros Hcov.
  destruct (output_exists final (e_name e)) eqn:Ef; [apply app_nil_r | ].
  assert (Ho : output_exists outputs (e_name e) = false).
  { destruct (output_exists outputs (e_name e)) eqn:E; [ | reflexivity ].
    rewrite <- Ef. symmetry. apply Hcov. now rewrite output_exists_app, E. }
  rewrite Ho in Hcov. unfold report_of in *.
  destruct (e_table e) as [df | ]; [ | apply app_nil_r ].
  destruct (process_excel U t1 df) as [why | rows] eqn:P.
  - now rewrite (process_excel_failure_fixed t1 t2 df why P), app_nil_r.
  - exfalso. assert (H : output_exists final (e_name e) = true).
    { apply Hcov. rewrite output_exists_app. apply orb_true_iff. right.
      cbn. now rewrite pystr_eqb_refl. }
    congruence.
Qed.

Lemma main_loop_grows (today : date) :
  forall (files : list entry) (outputs : list (pystr * content)) (log : list event),
    covers (fst (fold_left (main_step U today) files (outputs, log))) outputs.
Proof.
  induction files as [ | e es IH ]; intros outputs log f Hf; [assumption | ].
  cbn [fold_left]. rewrite main_step_spec. apply IH.
  rewrite output_exists_app, Hf. reflexivity.
Qed.

Lemma main_loop_fixed (t1 t2 : date) :
  forall (files : list entry) (outputs final : list (pystr * content))
         (log log' : list event),
    covers final (fst (fold_left (main_step U t1) files (outputs, log))) ->
    fst (fold_left (main_step U t2) files (final, log')) = final.
Proof.
  induction files as [ | e es IH ]; intros outputs final log log' Hcov; [reflexivity | ].
  cbn [fold_left] in *.
  destruct (main_step U t1 (outputs, log) e) as [o1 l1] eqn:S1.
  assert (Hstep : fst (main_step U t2 (final, log') e) = final).
  { apply (main_step_fixed t1 t2 outputs final log log' e). rewrite S1. cbn [fst].
    intros f Hf. apply Hcov. now apply main_loop_grows. }
  destruct (main_step U t2 (final, log') e) as [o2 l2]. cbn [fst] in Hstep. subst o2.
  now apply (IH o1 final l1 l2).
Qed.

Lemma world_after_cases (today : date) (w : world) :
  world_after U lower today w
  = match input_dir w with
    | None => w
    | Some entries =>
        match filter (fun e => is_xlsx lower (e_name e)) entries with
        | [] => w
        | files =>
            {| input_dir := input_dir w;
               output_dir := fst (fold_left (main_step U today) files (output_dir w, [])) |}
        end
    end.
Proof.
  unfold world_after, main. destruct (input_dir w) as [entries | ]; [ | reflexivity ].
  destruct (filter _ entries) as [ | e es ]; [reflexivity | ].
  now destruct (fold_left _ _ _).
Qed.

(** X15: running [main] again, at any later date, on the world a run has
    left adds no file and changes none: the files that were processed are
    skipped, and those that failed fail again. *)
Theorem main_again_changes_nothing (t1 t2 : date) (w : world) :
  world_after U lower t2 (world_after U lower t1 w) = world_after U lower t1 w.
Proof.
  rewrite (world_after_cases t1 w).
  destruct (input_dir w) as [entries | ] eqn:Hin.
  - destruct (filter (fun e => is_xlsx lower (e_name e)) entries) as [ | e es ] eqn:Ef.
    + rewrite world_after_cases, Hin, Ef. reflexivity.
    + rewrite world_after_cases. cbn [input_dir output_dir]. rewrite Ef. f_equal.
      apply (main_loop_fixed t1 t2 (e :: es) (output_dir w) _ [] []).
      intros f H. exact H.
  - rewrite world_after_cases, Hin. reflexivity.
Qed.

End BatchFacts.

(* ================================================================== *)
(** * The range of ages *)

Section AgeRange.
Variable U : unicode_db.

Lemma digit_value_range (c : N) : (0 <= digit_value U c <= 9)%Z.
Proof.
  unfold digit_value. destruct (is_ascii_digit c) eqn:E.
  - apply between_true in E. unfold ch in *. simpl in *. lia.
  - destruct (decimal U c) as [v | ] eqn:D; [ | lia ].
    pose proof (decimal_sound U c v D) as (Hv & _). lia.
Qed.

(** The year an ID number of the pattern embeds is 1900 to 2099. *)
Lemma birth_year_range (w : pystr) :
  matches (id_re U) w -> (1900 <= birth_year U w <= 2099)%Z.
Proof.
  intros M. unfold id_re in M. apply id_word_explicit in M.
  destruct M as (c0 & d1 & d2 & d3 & d4 & d5 & y1 & y2 & y3 & y4 & m1 & m2 & a1 & a2
                 & s1 & s2 & s3 & l & -> & _ & _ & _ & Hc & _).
  unfold birth_year, slice, int_of_digits. cbn [skipn firstn Nat.sub fold_left].
  pose proof (digit_value_range y3). pose proof (digit_value_range y4).
  unfold century_chars in Hc. rewrite orb_true_iff, !andb_true_iff, !N.eqb_eq in Hc.
  destruct Hc as [[<- <-] | [<- <-]];
    change (digit_value U (ch "1")) with 1%Z; change (digit_value U (ch "9")) with 9%Z;
    change (digit_value U (ch "2")) with 2%Z; change (digit_value U (ch "0")) with 0%Z;
    lia.
Qed.

(** X16: the age of a record lies between the current year less 2100
    and the current year less 1900, the years the ID pattern admits. *)
Theorem record_age_range (today : date) (name_cell phone_cell id_cell : cell) (a : Z) :
  r_age (make_record U today name_cell phone_cell id_cell) = Some a ->
  (year today - 2100 <= a <= year today - 1900)%Z.
Proof.
  unfold make_record. cbn [r_age].
  destruct (clean_id_word U (nan_to_empty id_cell)) as [E | M].
  - rewrite E. discriminate.
  - rewrite (calculate_age_of_id U today _ M).
    pose proof (birth_year_range _ M) as Hy.
    destruct (make_date _ _ _); [ | discriminate ].
    intros [= <-]. destruct (pair_ltb _ _); lia.
Qed.

End AgeRange.

(** An instance of [record_age_range]: the first row of the scenario
    table on 2026-11-03. *)
Lemma record_age_range_example :
  r_age (make_record sample_db {| year := 2026; month := 11; day := 3 |}
           (Some zhang_san) (Some (py "13912345678"))
           (Some (py "110101199001011234"))) = Some 36%Z
  /\ (2026 - 2100 <= 36 <= 2026 - 1900)%Z.
Proof.
  assert (H : r_age (make_record sample_db {| year := 2026; month := 11; day := 3 |}
                       (Some zhang_san) (Some (py "13912345678"))
                       (Some (py "110101199001011234"))) = Some 36%Z)
    by (vm_compute; reflexivity).
  split; [exact H | ].
  exact (record_age_range sample_db {| year := 2026; month := 11; day := 3 |}
           _ _ _ 36%Z H).
Defined.

(** An instance of [base_df_one_record_per_row]: the scenario table. *)
Lemma base_df_one_record_per_row_example :
  (forall c, In c scenario_table -> length (col_cells c) = 2)
  /\ detect_columns sample_db scenario_table = inr (py "X", py "Y", py "Z")
  /\ length (base_df sample_db {| year := 2026; month := 11; day := 3 |}
               scenario_table (py "X") (py "Y") (py "Z")) = 2.
Proof.
  assert (H : forall c, In c scenario_table -> length (col_cells c) = 2)
    by (intros c [<- | [<- | [<- | []]]]; reflexivity).
  assert (D : detect_columns sample_db scenario_table = inr (py "X", py "Y", py "Z"))
    by (vm_compute; reflexivity).
  split; [exact H | split; [exact D | ] ].
  exact (proj1 (base_df_one_record_per_row sample_db
                  {| year := 2026; month := 11; day := 3 |} scenario_table 2 _ _ _ H D)).
Defined.

